(** * LinuxTrainerCLI: the answer checker and the session loop

    A shallow embedding of [checker.py] and of [trainer.py] (the loading of
    the levels and the interactive loop), with the properties of the two
    stated and proved over it.

    A Python [str] is a sequence of Unicode code points: here a list of [N].
    The built-in string methods the program calls ([strip], [split], [join])
    are written out as CPython defines them for the argument-free forms. *)

From Stdlib Require Import List NArith ZArith Bool Lia String Ascii.
From Stdlib Require Import Sorted Permutation.
Import ListNotations.

(** ** Python strings *)

Module PyStr.

Definition char := N.
Definition str := list char.

(** A literal of the source, read code point by code point (the literals of
    the program are all ASCII). *)
Definition lit (s : string) : str := map N_of_ascii (list_ascii_of_string s).

(** [Py_UNICODE_ISSPACE]: the code points that [str.strip()] and
    [str.split()] treat as whitespace. *)
Definition isspace (c : char) : bool :=
  ((9 <=? c) && (c <=? 13)              (* \t \n \v \f \r *)
   || (28 <=? c) && (c <=? 32)          (* FS GS RS US and the space *)
   || (c =? 133) || (c =? 160)          (* NEL, no-break space *)
   || (c =? 5760)                       (* U+1680 *)
   || (8192 <=? c) && (c <=? 8202)      (* U+2000 .. U+200A *)
   || (c =? 8232) || (c =? 8233)        (* U+2028, U+2029 *)
   || (c =? 8239) || (c =? 8287)        (* U+202F, U+205F *)
   || (c =? 12288))%N.                  (* U+3000 *)

(** [a == b] on strings. *)
Fixpoint eqb (a b : str) : bool :=
  match a, b with
  | [], [] => true
  | x :: a', y :: b' => (x =? y)%N && eqb a' b'
  | _, _ => false
  end.

(** [x in {...}] for a set display of strings. *)
Fixpoint mem (x : str) (xs : list str) : bool :=
  match xs with
  | [] => false
  | y :: ys => eqb x y || mem x ys
  end.

(** [s.lstrip()]: drop the leading whitespace. *)
Fixpoint lstrip (s : str) : str :=
  match s with
  | [] => []
  | c :: s' => if isspace c then lstrip s' else s
  end.

(** [s.rstrip()]: drop the trailing whitespace. *)
Definition rstrip (s : str) : str := rev (lstrip (rev s)).

(** [s.strip()]: both ends. *)
Definition strip (s : str) : str := rstrip (lstrip s).

(** The scanning loop of [s.split()]: [tok] holds the characters of the word
    being read ([[]] between words); a whitespace character closes the word,
    the end of the string closes the last one. Empty words are never
    produced. *)
Fixpoint split_scan (tok : str) (s : str) : list str :=
  match s with
  | [] => match tok with [] => [] | _ => [tok] end
  | c :: s' =>
      if isspace c
      then match tok with
           | [] => split_scan [] s'
           | _ => tok :: split_scan [] s'
           end
      else split_scan (tok ++ [c]) s'
  end.

(** [s.split()] *)
Definition split (s : str) : list str := split_scan [] s.

(** [sep.join(ws)] *)
Fixpoint join (sep : str) (ws : list str) : str :=
  match ws with
  | [] => []
  | [w] => w
  | w :: ws' => w ++ sep ++ join sep ws'
  end.

(** Truth value of an [Optional[str]]: [None] and [""] are false. *)
Definition truthy (o : option str) : bool :=
  match o with
  | None => false
  | Some [] => false
  | Some (_ :: _) => true
  end.

(** A string without whitespace. *)
Definition spaceless (w : str) : Prop := Forall (fun c => isspace c = false) w.

(** A string of whitespace only. *)
Definition blank (w : str) : Prop := Forall (fun c => isspace c = true) w.

(** What [split] produces: non-empty and without whitespace. *)
Definition word (w : str) : Prop := w <> [] /\ spaceless w.

(** No whitespace in front. *)
Definition tight (s : str) : Prop :=
  match s with
  | [] => True
  | c :: _ => isspace c = false
  end.

End PyStr.

(** ** checker.py *)

Module Checker.
Import PyStr.

(** [normalise_command(cmd)]: [" ".join(cmd.strip().split())] *)
Definition normalise_command (cmd : str) : str :=
  join (lit " ") (split (strip cmd)).

(** [parts[0] if parts else ""] *)
Definition base_of (parts : list str) : str :=
  match parts with
  | [] => lit ""
  | b :: _ => b
  end.

(** [check_command(user_input, expected_command)] *)
Definition check_command (user_input : str) (expected_command : option str)
  : bool :=
  if negb (truthy expected_command) then false
  else
    let expected_text := match expected_command with Some e => e | None => [] end in
    let user_norm := normalise_command user_input in
    let expected_norm := normalise_command expected_text in
    (* Rule 1 *)
    if eqb user_norm expected_norm then true
    else
      let user_parts := split user_norm in
      let expected_parts := split expected_norm in
      let user_base := base_of user_parts in
      let expected_base := base_of expected_parts in
      (* Rule 2 *)
      if eqb expected_norm (lit "ls") && eqb user_base (lit "ls") then true
      (* Rule 3 *)
      else if eqb expected_norm (lit "history") && eqb user_base (lit "history")
      then true
      (* Rule 4 *)
      else if eqb expected_base (lit "nano")
              && mem user_base [lit "nano"; lit "vi"]
      then
        if (1 <? List.length expected_parts) && (1 <? List.length user_parts)
        then
          let expected_file := nth 1 expected_parts [] in
          let user_file := nth 1 user_parts [] in
          eqb expected_file user_file
        else false
      (* default *)
      else false.

(** The cascade of rules as one boolean expression, for the proofs: what
    [check_command] computes once the guard on a missing expectation is
    passed ([check_command_rules]). *)
Definition rules (u e : str) : bool :=
  let un := normalise_command u in
  let en := normalise_command e in
  eqb un en
  || eqb en (lit "ls") && eqb (base_of (split un)) (lit "ls")
  || eqb en (lit "history") && eqb (base_of (split un)) (lit "history")
  || eqb (base_of (split en)) (lit "nano")
     && mem (base_of (split un)) [lit "nano"; lit "vi"]
     && ((1 <? List.length (split en)) && (1 <? List.length (split un)))
     && eqb (nth 1 (split en) []) (nth 1 (split un) []).

End Checker.

(** ** trainer.py *)

Module Trainer.
Import PyStr Checker.

(** A level as [load_levels] returns it: a dictionary read from a JSON file,
    any key of which may be missing ([level.get(key)] is then [None]). *)
Record Level : Type := mkLevel {
  number : option Z;
  title : option str;
  description : option str;
  expected_command : option str;
  hint : option str
}.

(** The text of [datetime.now().isoformat()]. *)
Definition timestamp := str.

(** The lines [main] writes to [logs/commands.log]. *)
Inductive log_line : Type :=
| SessionStarted (t : timestamp)              (* "Session started at {t}" *)
| NoLevelsLoaded                              (* "No levels loaded. Exiting." *)
| LevelInput (n : option Z) (user_input : str) (* "Level {n} input: {user_input}" *)
| UserExited                                  (* "User exited the session." *)
| SessionEnded (t : timestamp).               (* "Session ended at {t}" *)

(** What [main] prints on the terminal. *)
Inductive message : Type :=
| NoLevelsFound                               (* "No levels found. ..." *)
| Welcome                                     (* the four lines of the banner *)
| Header (n : option Z) (title : option str)  (* "** Level {n}: {title} **" *)
| Description (d : option str)
| Goodbye                                     (* "Exiting the LinuxTrainer. Goodbye!" *)
| HintText (h : str)                          (* "Hint: {h}" *)
| NoHint                                      (* "No hint available for this level." *)
| Correct                                     (* "Correct! Well done." *)
| Stdout (out : str)
| Stderr (err : str)
| Skipped                                     (* "(Command execution skipped for safety.)" *)
| Oops                                        (* "Oops, that's not the right command. ..." *)
| Blank
| Congratulations.                            (* the two closing lines *)

(** What a session does, in the order it does it. *)
Inductive event : Type :=
| Write (l : log_line)                        (* [log_file.write(...)] *)
| Close                                       (* [log_file.close()] *)
| Print (m : message)                         (* [print(...)] *)
| Check (user_input : str) (expected : option str)
                                              (* [checker.check_command(...)] *)
| Run (argv : list str).                      (* [subprocess.run(argv, ...)] *)

(** What [input("> ")] gives: a line, or an exception ([EOFError],
    [KeyboardInterrupt]). *)
Inductive read : Type :=
| Line (raw : str)
| ReadRaised.

(** What [subprocess.run(..., check=False)] gives: a completed process, of any
    return code, or an exception (the program is absent, say). *)
Inductive run_result : Type :=
| Completed (stdout stderr : str) (returncode : Z)
| RunRaised.

(** Where the control of [main] is. *)
Inductive control : Type :=
| Prompting          (* in [while True], about to call [input] *)
| Finished           (* the [for] loop ran out of levels *)
| Quit               (* the [return] of the exit/quit branch *)
| NoLevels           (* the early [return] when no level was loaded *)
| Failed.            (* an exception is on its way out of [main] *)

(** The session: the level list, the position of the [for] loop in it (the
    index of the current level), the control point and the events so far. *)
Record session : Type := mkSession {
  levels : list Level;
  index : nat;
  ctl : control;
  trace : list event
}.

Definition emit (es : list event) (s : session) : session :=
  mkSession (levels s) (index s) (ctl s) (trace s ++ es).

Definition goto (c : control) (s : session) : session :=
  mkSession (levels s) (index s) c (trace s).

Definition advance (s : session) : session :=
  mkSession (levels s) (S (index s)) (ctl s) (trace s).

(** [safe_commands] *)
Definition safe_commands : list str :=
  [lit "pwd"; lit "ls"; lit "whoami"; lit "echo"; lit "clear"; lit "date";
   lit "history"].

(** [print(text)] under [if text:] for the captured, stripped output. *)
Definition print_if (mk : str -> message) (text : str) : list event :=
  match text with
  | [] => []
  | _ => [Print (mk text)]
  end.

Section Session.

(** [str.lower], the interpreter's Unicode lower-casing. *)
Variable lower : str -> str.

(** The outcome of [subprocess.run] for each argument vector. *)
Variable subprocess_run : list str -> run_result.

(** The values of [datetime.now().isoformat()] at the start and at the end. *)
Variables t_start t_end : timestamp.

(** The head of the [for] loop: take the level at [index] and print its
    header, or leave the loop and print the closing lines. *)
Definition enter_level (s : session) : session :=
  match nth_error (levels s) (index s) with
  | Some level =>
      goto Prompting
        (emit [Print (Header (number level) (title level));
               Print (Description (description level))] s)
  | None => goto Finished (emit [Print Congratulations] s)
  end.

(** What is shown of a demonstration run: the stripped output and error
    text of a completed process when not empty, nothing when
    [subprocess.run] raised ([except Exception: pass]). *)
Definition shown (r : run_result) : list event :=
  match r with
  | Completed stdout stderr _ =>
      print_if Stdout (strip stdout) ++ print_if Stderr (strip stderr)
  | RunRaised => []
  end.

(** The demonstration run of a solved command (lines 174-196). [None] is the
    [IndexError] of [user_input.split()[0]]. *)
Definition demonstrate (user_input : str) : option (list event) :=
  let base :=
    match user_input with
    | [] => Some (lit "")
    | _ => nth_error (split user_input) 0
    end in
  match base with
  | None => None
  | Some base =>
      if mem base safe_commands
      then Some (Run (split user_input) :: shown (subprocess_run (split user_input)))
      else Some [Print Skipped]
  end.

(** One turn of the [while True] loop at the current level. *)
Definition step (s : session) (r : read) : session :=
  match ctl s, nth_error (levels s) (index s) with
  | Prompting, Some level =>
      match r with
      | ReadRaised => goto Failed s
      | Line raw =>
          let user_input := strip raw in
          let s := emit [Write (LevelInput (number level) user_input)] s in
          if mem (lower user_input) [lit "exit"; lit "quit"]
          then goto Quit (emit [Print Goodbye; Write UserExited] s)
          else if eqb (lower user_input) (lit "hint")
          then
            match hint level with
            | Some (c :: h) => emit [Print (HintText (c :: h))] s
            | _ => emit [Print NoHint] s
            end
          else
            let s := emit [Check user_input (expected_command level)] s in
            if check_command user_input (expected_command level)
            then
              let s := emit [Print Correct] s in
              match demonstrate user_input with
              | None => goto Failed s
              | Some es => enter_level (advance (emit (es ++ [Print Blank]) s))
              end
            else emit [Print Oops] s
      end
  | _, _ => s
  end.

(** The loops of [main], fed with what the successive calls of [input] give;
    past the end of the input, [input] raises [EOFError]. *)
Fixpoint run (s : session) (inputs : list read) : session :=
  match ctl s with
  | Prompting =>
      match inputs with
      | [] => goto Failed s
      | r :: rest => run (step s r) rest
      end
  | _ => s
  end.

(** [main()], for the list [load_levels()] returned. *)
Definition main (loaded : list Level) (inputs : list read) : session :=
  let s := mkSession loaded 0 Prompting [Write (SessionStarted t_start)] in
  match loaded with
  | [] => goto NoLevels (emit [Print NoLevelsFound; Write NoLevelsLoaded; Close] s)
  | _ :: _ =>
      let s := emit [Print Welcome] s in
      (* try: ... finally: *)
      emit [Write (SessionEnded t_end); Close] (run (enter_level s) inputs)
  end.

End Session.

(** Lower-casing of the ASCII letters, as [str.lower] does on ASCII text. *)
Definition ascii_lower (s : str) : str :=
  map (fun c => if (65 <=? c) && (c <=? 90) then c + 32 else c)%N s.

(** The log file: the lines written, and whether it was closed. *)
Definition written (tr : list event) : list log_line :=
  flat_map (fun e => match e with Write l => [l] | _ => [] end) tr.

Definition closed (tr : list event) : bool :=
  existsb (fun e => match e with Close => true | _ => false end) tr.

Definition is_check (e : event) : bool :=
  match e with Check _ _ => true | _ => false end.

Definition is_run (e : event) : bool :=
  match e with Run _ => true | _ => false end.

Definition is_skipped (e : event) : bool :=
  match e with Print Skipped => true | _ => false end.

(** The events of [s'] that came after those of [s]. *)
Definition since (s s' : session) : list event :=
  skipn (List.length (trace s)) (trace s').

(** What [enter_level] prints at position [i] of the level list. *)
Definition announce (ls : list Level) (i : nat) : list event :=
  match nth_error ls i with
  | Some level =>
      [Print (Header (number level) (title level));
       Print (Description (description level))]
  | None => [Print Congratulations]
  end.

(** A session that waits for input has a level to wait at. *)
Definition consistent (s : session) : Prop :=
  ctl s = Prompting -> nth_error (levels s) (index s) <> None.

End Trainer.

(** ** A small session to run *)

Module Demo.
Import PyStr Trainer.

Definition level1 : Level :=
  mkLevel (Some 1%Z) None None (Some (lit "pwd"))
    (Some (lit "print the working directory")).

Definition level2 : Level :=
  mkLevel (Some 2%Z) None None (Some (lit "ls")) None.

Definition two_levels : list Level := [level1; level2].

(** A machine on which no command can be started. *)
Definition no_binaries (_ : list str) : run_result := RunRaised.

(** A machine on which every command fails with status 2. *)
Definition always_failing (_ : list str) : run_result :=
  Completed (lit "") (lit "cannot access") 2%Z.

(** The first prompt of a session on the two levels. *)
Definition first_prompt : session :=
  enter_level (mkSession two_levels 0 Prompting []).

End Demo.

(** ** The words of the specification, as definitions *)

Module Spec.
Import PyStr.

(** "collapses any run of whitespace characters into a single space":
    a whitespace character followed by another one is dropped, the last one
    of a run becomes a space. *)
Fixpoint collapse (s : str) : str :=
  match s with
  | [] => []
  | c :: s' =>
      if isspace c
      then match s' with
           | [] => lit " "
           | d :: _ => if isspace d then collapse s' else lit " " ++ collapse s'
           end
      else c :: collapse s'
  end.

(** "trims leading/trailing whitespace and collapses any run of whitespace
    characters into a single space" *)
Definition normalize (text : str) : str := collapse (strip text).

End Spec.

(** ** load_levels *)

Module Loader.
Import PyStr Checker Trainer.

(** [s.endswith(suffix)] *)
Definition endswith (s suffix : str) : bool :=
  eqb (skipn (List.length s - List.length suffix) s) suffix.

(** What [load_levels] prints: one line for a level file that could not be
    read or parsed ("Error reading level file {filename}: {e}"). *)
Inductive report : Type :=
| ReadFailed (filename : str).

(** [level.get("number", 0)], the sort key. *)
Definition sort_key (level : Level) : Z :=
  match number level with
  | Some n => n
  | None => 0%Z
  end.

(** [levels.sort(key=...)] is a stable ascending sort: an element goes in
    front of the first one whose key is not smaller, so that equal keys keep
    the order they had. *)
Fixpoint insert_level (level : Level) (sorted : list Level) : list Level :=
  match sorted with
  | [] => [level]
  | x :: rest =>
      if (sort_key level <=? sort_key x)%Z
      then level :: x :: rest
      else x :: insert_level level rest
  end.

Fixpoint sort_levels (ls : list Level) : list Level :=
  match ls with
  | [] => []
  | level :: rest => insert_level level (sort_levels rest)
  end.

Section Directory.

(** [str.lower]. *)
Variable lower : str -> str.

(** What opening and parsing the file of each name gives: the level, or
    [None] for an [IOError] or a [json.JSONDecodeError]. *)
Variable read_level : str -> option Level.

(** The [.json] files among the names [os.listdir] returned. *)
Definition level_files (listing : list str) : list str :=
  filter (fun f => endswith (lower f) (lit ".json")) listing.

(** The loop over the level files: the levels read, in the order of the
    files, and the files reported. *)
Fixpoint read_all (files : list str) : list report * list Level :=
  match files with
  | [] => ([], [])
  | filename :: rest =>
      let (reports, levels) := read_all rest in
      match read_level filename with
      | Some data => (reports, data :: levels)
      | None => (ReadFailed filename :: reports, levels)
      end
  end.

(** [load_levels()], for the names [os.listdir(levels_dir)] returned: what
    it prints and what it returns. *)
Definition load_levels (listing : list str) : list report * list Level :=
  let (reports, levels) := read_all (level_files listing) in
  (reports, sort_levels levels).

(** The levels of the files that can be read, in the order of the files. *)
Definition readable (files : list str) : list Level :=
  flat_map (fun f => match read_level f with
                     | Some data => [data]
                     | None => []
                     end) files.

(** The files that cannot be read. *)
Definition unreadable (files : list str) : list str :=
  filter (fun f => match read_level f with
                   | Some _ => false
                   | None => true
                   end) files.

End Directory.

(** The order of the sort. *)
Definition key_le (a b : Level) : Prop := (sort_key a <= sort_key b)%Z.

(** The levels of a given number, in the order they have in a list. *)
Definition numbered (k : Z) (ls : list Level) : list Level :=
  filter (fun level => (sort_key level =? k)%Z) ls.

End Loader.

(** ** What a trace tells *)

Module Observe.
Import PyStr Checker Trainer.


(** A command that was started has its first word in [safe_commands]. *)
Definition run_allowed (e : event) : bool :=
  match e with
  | Run argv => mem (base_of argv) safe_commands
  | _ => true
  end.

Definition is_correct (e : event) : bool :=
  match e with Print Correct => true | _ => false end.

(** The expected command of a level, typed as it is written. *)
Definition answer (level : Level) : str :=
  match expected_command level with
  | Some e => e
  | None => []
  end.

(** A level whose expected command is there and is not itself one of the
    words the loop takes for a request ([exit], [quit], [hint]). *)
Definition answerable (lower : str -> str) (level : Level) : Prop :=
  exists e, expected_command level = Some e /\ e <> []
            /\ mem (lower (strip e)) [lit "exit"; lit "quit"] = false
            /\ eqb (lower (strip e)) (lit "hint") = false.

(** What the demonstration of an accepted input adds to the trace: the
    command and what it showed, or the notice that it was skipped. *)
Definition demonstration (subprocess_run : list str -> run_result)
           (u : str) : list event :=
  if mem (base_of (split u)) safe_commands
  then Run (split u) :: shown (subprocess_run (split u))
  else [Print Skipped].

(** Where a session stands among its levels: on a level while it goes on or
    was left, past the last one when it is finished. *)
Definition in_range (s : session) : Prop :=
  match ctl s with
  | Finished => index s = List.length (levels s)
  | NoLevels => True
  | _ => index s < List.length (levels s)
  end.

(** Every whitespace character is a space, with no whitespace after it. *)
Fixpoint single_spaced (s : str) : Prop :=
  match s with
  | [] => True
  | c :: s' => (isspace c = true -> c = 32%N /\ tight s') /\ single_spaced s'
  end.

End Observe.

(** ** A small levels directory *)

Module Samples.
Import PyStr Trainer.

(** A level file without an expected command. *)
Definition level_open : Level :=
  mkLevel (Some 2%Z) (Some (lit "Free practice")) None None None.

Definition with_gap : list Level :=
  [Demo.level1; level_open; Demo.level2].

Definition listing : list str :=
  [lit "02_ls.json"; lit "notes.txt"; lit "01_pwd.JSON"; lit "broken.json"].

Definition read_sample (filename : str) : option Level :=
  if eqb filename (lit "02_ls.json") then Some Demo.level2
  else if eqb filename (lit "01_pwd.JSON") then Some Demo.level1
  else None.

End Samples.

Import PyStr Checker Trainer.

(** * Strings *)

Section StringFacts.

Lemma eqb_refl (a : str) : eqb a a = true.
Proof.
  induction a as [|x a IH]; simpl; [reflexivity|].
  now rewrite N.eqb_refl, IH.
Qed.

Lemma eqb_eq (a b : str) : eqb a b = true <-> a = b.
Proof.
  split; [|intros ->; apply eqb_refl].
  revert b; induction a as [|x a IH]; intros [|y b]; simpl; try discriminate; auto.
  intros H; apply andb_prop in H as [Hxy Hab].
  apply N.eqb_eq in Hxy; f_equal; auto.
Qed.

Lemma eqb_neq (a b : str) : eqb a b = false <-> a <> b.
Proof.
  split.
  - intros H Heq; apply eqb_eq in Heq; congruence.
  - intros H; destruct (eqb a b) eqn:E; [|reflexivity].
    apply eqb_eq in E; contradiction.
Qed.

Lemma eqb_sym (a b : str) : eqb a b = eqb b a.
Proof.
  destruct (eqb b a) eqn:E.
  - apply eqb_eq in E; subst; apply eqb_refl.
  - apply eqb_neq; apply eqb_neq in E; congruence.
Qed.

Lemma lstrip_tight (s : str) : tight (lstrip s).
Proof.
  induction s as [|c s IH]; simpl; [exact I|].
  destruct (isspace c) eqn:E; [exact IH|exact E].
Qed.

Lemma tight_lstrip (s : str) : tight s -> lstrip s = s.
Proof.
  destruct s as [|c s]; simpl; [reflexivity|].
  now intros ->.
Qed.

Lemma lstrip_decompose (s : str) : exists b, blank b /\ s = b ++ lstrip s.
Proof.
  induction s as [|c s (b & Hb & Hs)]; simpl.
  - exists []; split; [constructor|reflexivity].
  - destruct (isspace c) eqn:E.
    + exists (c :: b); split; [constructor; assumption|].
      simpl; congruence.
    + exists []; split; [constructor|reflexivity].
Qed.

Lemma rstrip_decompose (s : str) : exists b, blank b /\ s = rstrip s ++ b.
Proof.
  unfold rstrip.
  destruct (lstrip_decompose (rev s)) as (b & Hb & Hs).
  exists (rev b); split.
  - apply Forall_rev; exact Hb.
  - rewrite <- rev_app_distr, <- Hs, rev_involutive; reflexivity.
Qed.

Lemma rstrip_tight_rev (s : str) : tight (rev (rstrip s)).
Proof.
  unfold rstrip; rewrite rev_involutive; apply lstrip_tight.
Qed.

Lemma tight_app (a b : str) : a <> [] -> tight a -> tight (a ++ b).
Proof.
  destruct a; simpl; [congruence|auto].
Qed.

Lemma tight_suffix (a b : str) : tight (rev (a ++ b)) -> b <> [] -> tight (rev b).
Proof.
  rewrite rev_app_distr.
  intros H Hb.
  destruct (rev b) as [|c r] eqn:E; [exact I|exact H].
Qed.

(** Stripping the front leaves the back alone. *)
Lemma lstrip_keeps_back (s : str) : tight (rev s) -> tight (rev (lstrip s)).
Proof.
  induction s as [|c s IH]; simpl; [auto|].
  destruct (isspace c) eqn:E; [|auto].
  intros H.
  destruct s as [|d s]; [exact I|].
  apply IH.
  change (tight (rev ([c] ++ d :: s))) in H.
  apply tight_suffix in H; [exact H|discriminate].
Qed.

Lemma rstrip_keeps_front (s : str) : tight s -> tight (rstrip s).
Proof.
  unfold rstrip; intros H.
  rewrite <- (rev_involutive s) in H.
  apply lstrip_keeps_back in H; exact H.
Qed.

Lemma strip_tight (s : str) : tight (strip s) /\ tight (rev (strip s)).
Proof.
  unfold strip; split.
  - apply rstrip_keeps_front, lstrip_tight.
  - apply rstrip_tight_rev.
Qed.

Lemma strip_fixed (s : str) : tight s -> tight (rev s) -> strip s = s.
Proof.
  intros H1 H2; unfold strip, rstrip.
  rewrite (tight_lstrip _ H1), (tight_lstrip _ H2).
  apply rev_involutive.
Qed.

Lemma space_isspace : isspace 32%N = true.
Proof. reflexivity. Qed.

Lemma split_scan_word (tok w s : str) :
  spaceless w -> split_scan tok (w ++ s) = split_scan (tok ++ w) s.
Proof.
  intros Hw; revert tok.
  induction Hw as [|c w Hc Hw IH]; intros tok; simpl.
  - now rewrite app_nil_r.
  - rewrite Hc, IH, <- app_assoc; reflexivity.
Qed.

Lemma split_scan_space (tok : str) (c : char) (s : str) :
  isspace c = true -> tok <> [] ->
  split_scan tok (c :: s) = tok :: split_scan [] s.
Proof.
  intros Hc Htok; simpl; rewrite Hc.
  destruct tok; [contradiction|reflexivity].
Qed.

Lemma split_scan_end (tok : str) : tok <> [] -> split_scan tok [] = [tok].
Proof. destruct tok; [contradiction|reflexivity]. Qed.

Lemma split_scan_words (tok s : str) :
  spaceless tok -> Forall word (split_scan tok s).
Proof.
  revert tok; induction s as [|c s IH]; intros tok Htok; simpl.
  - destruct tok; constructor; [|constructor].
    split; [discriminate|exact Htok].
  - destruct (isspace c) eqn:E.
    + destruct tok.
      * apply IH; constructor.
      * constructor; [split; [discriminate|exact Htok]|].
        apply IH; constructor.
    + apply IH. apply Forall_app; split; [exact Htok|].
      constructor; [exact E|constructor].
Qed.

Lemma split_words (s : str) : Forall word (split s).
Proof. apply split_scan_words; constructor. Qed.

Lemma split_scan_blank (tok b : str) :
  blank b -> split_scan tok b = split_scan tok [].
Proof.
  intros Hb; revert tok.
  induction Hb as [|c b Hc Hb IH]; intros tok; [reflexivity|].
  simpl; rewrite Hc.
  destruct tok; rewrite (IH []); reflexivity.
Qed.

Lemma split_scan_app_blank (tok s b : str) :
  blank b -> split_scan tok (s ++ b) = split_scan tok s.
Proof.
  intros Hb; revert tok; induction s as [|c s IH]; intros tok.
  - apply split_scan_blank; exact Hb.
  - simpl; destruct (isspace c); [destruct tok|]; now rewrite IH.
Qed.

Lemma split_blank_app (b s : str) : blank b -> split (b ++ s) = split s.
Proof.
  unfold split; induction 1 as [|c b Hc Hb IH]; [reflexivity|].
  simpl; rewrite Hc; exact IH.
Qed.

Lemma split_strip (s : str) : split (strip s) = split s.
Proof.
  unfold strip.
  destruct (lstrip_decompose s) as (b1 & Hb1 & Hs1).
  destruct (rstrip_decompose (lstrip s)) as (b2 & Hb2 & Hs2).
  rewrite Hs1 at 2; rewrite split_blank_app by exact Hb1.
  rewrite Hs2 at 2; unfold split.
  now rewrite split_scan_app_blank.
Qed.

Lemma join_cons2 (sep w w' : str) (ws : list str) :
  join sep (w :: w' :: ws) = w ++ sep ++ join sep (w' :: ws).
Proof. reflexivity. Qed.

Lemma split_join (ws : list str) :
  Forall word ws -> split (join (lit " ") ws) = ws.
Proof.
  unfold split.
  induction ws as [|w ws IH]; intros Hws; [reflexivity|].
  inversion Hws as [|? ? [Hne Hw] Hws']; subst.
  destruct ws as [|w' ws].
  - simpl join. rewrite <- (app_nil_r w) at 1.
    rewrite split_scan_word by exact Hw.
    apply split_scan_end; exact Hne.
  - rewrite join_cons2, split_scan_word by exact Hw.
    simpl app at 1.
    change (lit " " ++ join (lit " ") (w' :: ws))
      with (32%N :: join (lit " ") (w' :: ws)).
    rewrite split_scan_space by (auto using space_isspace).
    now rewrite IH.
Qed.

Lemma join_nonempty (sep w : str) (ws : list str) :
  w <> [] -> join sep (w :: ws) <> [].
Proof.
  intros Hw; destruct ws; simpl; [exact Hw|].
  destruct w; [contradiction|discriminate].
Qed.

Lemma word_tight (w : str) : word w -> tight w /\ tight (rev w).
Proof.
  intros [Hne Hw]; split.
  - destruct w; [exact I|]. now inversion Hw.
  - apply Forall_rev in Hw. unfold spaceless in Hw.
    destruct (rev w); [exact I|]. now inversion Hw.
Qed.

Lemma join_tight (ws : list str) :
  Forall word ws ->
  tight (join (lit " ") ws) /\ tight (rev (join (lit " ") ws)).
Proof.
  induction ws as [|w ws IH]; intros Hws; [split; exact I|].
  inversion Hws as [|? ? Hw Hws']; subst.
  destruct (word_tight _ Hw) as [Hf Hb].
  destruct ws as [|w' ws]; [split; assumption|].
  rewrite join_cons2; split.
  - apply tight_app; [apply Hw|exact Hf].
  - rewrite !rev_app_distr, <- app_assoc.
    apply tight_app; [|apply IH; exact Hws'].
    intros H. apply (f_equal (@rev char)) in H.
    rewrite rev_involutive in H.
    inversion Hws' as [|? ? [Hne' _] _]; subst.
    exact (join_nonempty (lit " ") w' ws Hne' H).
Qed.

Lemma strip_join (ws : list str) :
  Forall word ws -> strip (join (lit " ") ws) = join (lit " ") ws.
Proof.
  intros Hws; destruct (join_tight _ Hws); now apply strip_fixed.
Qed.

Lemma normalise_join (ws : list str) :
  Forall word ws -> normalise_command (join (lit " ") ws) = join (lit " ") ws.
Proof.
  intros Hws; unfold normalise_command.
  now rewrite strip_join, split_join.
Qed.

Lemma normalise_idempotent (x : str) :
  normalise_command (normalise_command x) = normalise_command x.
Proof.
  unfold normalise_command at 2 3.
  apply normalise_join, split_words.
Qed.

(** The words of the normalised text are the words of the text. *)
Lemma split_normalise (x : str) : split (normalise_command x) = split x.
Proof.
  unfold normalise_command.
  rewrite split_join by apply split_words.
  apply split_strip.
Qed.

Lemma tight_rev_tail (c : char) (t : str) :
  tight (rev (c :: t)) -> t <> [] -> tight (rev t).
Proof.
  intros H Ht. change (tight (rev ([c] ++ t))) in H.
  now apply tight_suffix in H.
Qed.

Lemma split_scan_cons (tok : str) (c : char) (s : str) :
  split_scan tok (c :: s) =
  if isspace c
  then match tok with
       | [] => split_scan [] s
       | _ => tok :: split_scan [] s
       end
  else split_scan (tok ++ [c]) s.
Proof. reflexivity. Qed.

Lemma collapse_cons2 (c d : char) (s : str) :
  Spec.collapse (c :: d :: s) =
  if isspace c
  then if isspace d then Spec.collapse (d :: s)
       else lit " " ++ Spec.collapse (d :: s)
  else c :: Spec.collapse (d :: s).
Proof. reflexivity. Qed.

Lemma split_scan_nonempty (t tok : str) :
  t <> [] -> tight (rev t) -> split_scan tok t <> [].
Proof.
  revert tok; induction t as [|c t IH]; intros tok Hne Ht; [contradiction|].
  destruct t as [|d t].
  - simpl in Ht |- *. rewrite Ht. destruct tok; discriminate.
  - assert (Ht' : tight (rev (d :: t)))
      by (apply (tight_rev_tail c); [exact Ht|discriminate]).
    rewrite split_scan_cons. destruct (isspace c).
    + destruct tok; [apply IH; [discriminate|exact Ht']|discriminate].
    + apply IH; [discriminate|exact Ht'].
Qed.

Lemma join_cons_nonempty (sep w : str) (ws : list str) :
  ws <> [] -> join sep (w :: ws) = w ++ sep ++ join sep ws.
Proof. destruct ws; [contradiction|reflexivity]. Qed.

(** Joining the words of a text that does not end in whitespace collapses
    its whitespace runs; a run in front, which [split] skips, accounts for
    one more space. *)
Lemma join_split_collapse (t : str) :
  tight (rev t) ->
  (forall tok, tok <> [] ->
     join (lit " ") (split_scan tok t) = tok ++ Spec.collapse t)
  /\ (tight t -> join (lit " ") (split_scan [] t) = Spec.collapse t)
  /\ (~ tight t ->
      32%N :: join (lit " ") (split_scan [] t) = Spec.collapse t).
Proof.
  induction t as [|c t IH]; intros Ht.
  - repeat split.
    + intros tok Htok. rewrite split_scan_end by exact Htok.
      simpl. now rewrite app_nil_r.
    + intros H; exfalso; apply H; exact I.
  - destruct (isspace c) eqn:Ec.
    + (* a whitespace character: the text goes on after it *)
      destruct t as [|d t]; [simpl in Ht; congruence|].
      assert (Ht' : tight (rev (d :: t)))
        by (apply (tight_rev_tail c); [exact Ht|discriminate]).
      destruct (IH Ht') as (IH1 & IH2 & IH3).
      assert (Hrest : 32%N :: join (lit " ") (split_scan [] (d :: t))
                      = Spec.collapse (c :: d :: t)).
      { rewrite collapse_cons2, Ec.
        destruct (isspace d) eqn:Ed.
        - apply IH3. simpl. congruence.
        - change (lit " " ++ Spec.collapse (d :: t))
            with (32%N :: Spec.collapse (d :: t)).
          f_equal. apply IH2. exact Ed. }
      repeat split.
      * intros tok Htok.
        rewrite split_scan_space by assumption.
        rewrite join_cons_nonempty
          by (apply split_scan_nonempty; [discriminate|exact Ht']).
        rewrite <- Hrest. reflexivity.
      * simpl; congruence.
      * intros _. rewrite <- Hrest, (split_scan_cons [] c), Ec. reflexivity.
    + (* a character of a word *)
      assert (Hword : forall tok,
                 join (lit " ") (split_scan tok (c :: t))
                 = tok ++ Spec.collapse (c :: t)).
      { intros tok. rewrite split_scan_cons, Ec.
        destruct t as [|d t].
        - simpl. rewrite Ec.
          destruct (tok ++ [c]) eqn:E; [|reflexivity].
          now destruct tok.
        - rewrite collapse_cons2, Ec.
          assert (Ht' : tight (rev (d :: t)))
            by (apply (tight_rev_tail c); [exact Ht|discriminate]).
          destruct (IH Ht') as (IH1 & _).
          rewrite IH1 by (destruct tok; discriminate).
          now rewrite <- app_assoc. }
      repeat split.
      * intros tok _. apply Hword.
      * intros _. apply (Hword []).
      * intros H; exfalso; apply H; exact Ec.
Qed.

(** [normalise_command] is the trimming and collapsing of the
    specification. *)
Lemma normalise_is_collapse (x : str) :
  normalise_command x = Spec.normalize x.
Proof.
  unfold normalise_command, Spec.normalize, split.
  destruct (strip_tight x) as [Hf Hb].
  apply (join_split_collapse (strip x) Hb); exact Hf.
Qed.

End StringFacts.

(** * The checker *)

Section CheckerFacts.

Implicit Types (u e : str).

Lemma check_command_rules u e :
  e <> [] -> check_command u (Some e) = rules u e.
Proof.
  intros He. unfold check_command, rules.
  destruct e as [|c e]; [contradiction|].
  cbv beta iota delta [truthy negb].
  cbv zeta.
  destruct (eqb (normalise_command u) (normalise_command (c :: e)));
    [reflexivity|].
  destruct (eqb (normalise_command (c :: e)) (lit "ls")
            && eqb (base_of (split (normalise_command u))) (lit "ls"));
    [reflexivity|].
  destruct (eqb (normalise_command (c :: e)) (lit "history")
            && eqb (base_of (split (normalise_command u))) (lit "history"));
    [reflexivity|].
  destruct (eqb (base_of (split (normalise_command (c :: e)))) (lit "nano")
            && mem (base_of (split (normalise_command u)))
                 [lit "nano"; lit "vi"]);
    [|reflexivity].
  destruct ((1 <? List.length (split (normalise_command (c :: e))))
            && (1 <? List.length (split (normalise_command u))));
    reflexivity.
Qed.

Lemma normalise_nil : normalise_command [] = [].
Proof. reflexivity. Qed.

(** An expectation with a first word is not the empty text. *)
Lemma base_nonempty e (b : str) :
  b <> [] -> base_of (split (normalise_command e)) = b -> e <> [].
Proof. intros Hb H ->. apply Hb. rewrite <- H. reflexivity. Qed.

(** Rule 4 in full: with [nano] expected and [nano] or [vi] typed, the
    verdict is the exact match or the equality of the second words. *)
Lemma check_editor u e :
  base_of (split (normalise_command e)) = lit "nano" ->
  mem (base_of (split (normalise_command u))) [lit "nano"; lit "vi"] = true ->
  check_command u (Some e) =
  eqb (normalise_command u) (normalise_command e)
  || (1 <? List.length (split (normalise_command e)))
     && (1 <? List.length (split (normalise_command u)))
     && eqb (nth 1 (split (normalise_command e)) [])
            (nth 1 (split (normalise_command u)) []).
Proof.
  intros He Hu.
  rewrite check_command_rules
    by (apply (base_nonempty _ (lit "nano")); [discriminate|exact He]).
  unfold rules. rewrite He, Hu.
  destruct (eqb (normalise_command u) (normalise_command e)); [reflexivity|].
  destruct (eqb (normalise_command e) (lit "ls")) eqn:E1.
  { apply eqb_eq in E1. rewrite E1 in He. discriminate He. }
  destruct (eqb (normalise_command e) (lit "history")) eqn:E2.
  { apply eqb_eq in E2. rewrite E2 in He. discriminate He. }
  reflexivity.
Qed.

Lemma mem_editor (b : str) :
  mem b [lit "nano"; lit "vi"] = true <-> b = lit "nano" \/ b = lit "vi".
Proof.
  simpl mem. rewrite orb_false_r, orb_true_iff, !eqb_eq. reflexivity.
Qed.

End CheckerFacts.

Section CheckerProperties.

Implicit Types (u e x : str).

(** With an empty normalised input the verdict is exactly: the expectation is
    a non-empty text of whitespace only. *)
Lemma empty_input_verdict u (expected : option str) :
  normalise_command u = [] ->
  check_command u expected = true <->
  exists t, expected = Some t /\ t <> [] /\ normalise_command t = [].
Proof.
  intros Hu. split.
  - destruct expected as [[|c t]|]; try discriminate.
    rewrite check_command_rules by discriminate.
    unfold rules. rewrite Hu.
    change (split []) with (@nil str).
    simpl base_of. simpl mem. simpl List.length.
    rewrite !andb_false_r, !orb_false_r.
    intros H. apply eqb_eq in H.
    exists (c :: t). repeat split; [discriminate|congruence].
  - intros (t & -> & Ht & Hn).
    rewrite check_command_rules by exact Ht.
    unfold rules. rewrite Hu, Hn. reflexivity.
Qed.

(** C1, as stated, fails: the empty input matches an expectation made of a
    single space, by Rule 1. *)
Lemma empty_input_matches_blank_expectation :
  ~ (forall u (expected : option str),
       normalise_command u = [] -> check_command u expected = false).
Proof.
  intros H.
  specialize (H (lit "") (Some (lit " ")) eq_refl).
  discriminate H.
Qed.

(** C1 (amended): an input that normalises to the empty string is rejected
    whenever the expectation is absent, empty, or has at least one word. *)
Theorem empty_input_rejected u (expected : option str) :
  normalise_command u = [] ->
  (forall t, expected = Some t -> t <> [] -> normalise_command t <> []) ->
  check_command u expected = false.
Proof.
  intros Hu Hexp.
  destruct (check_command u expected) eqn:E; [|reflexivity].
  apply (empty_input_verdict u expected Hu) in E.
  destruct E as (t & Ht & Hne & Hn).
  exfalso. exact (Hexp t Ht Hne Hn).
Qed.

Lemma empty_input_rejected_witness :
  check_command (lit "   ") (Some (lit "ls -l")) = false
  /\ check_command (lit "") None = false.
Proof.
  split.
  - apply (empty_input_rejected (lit "   ") (Some (lit "ls -l")));
      [reflexivity|].
    intros t Ht _. injection Ht as <-. vm_compute. discriminate.
  - apply (empty_input_rejected (lit "") None); [reflexivity|].
    intros t Ht. discriminate Ht.
Defined.

(** C5: without an expectation ([None] or the empty string) every input is
    rejected. *)
Theorem no_expectation_rejects_all x :
  check_command x None = false /\ check_command x (Some (lit "")) = false.
Proof. split; reflexivity. Qed.

(** C6: [normalise_command] trims both ends and collapses each whitespace
    run into one space (it is the [normalize] of the specification), and it
    is idempotent; ["  ls   -l  "] becomes ["ls -l"]. *)
Theorem normalise_command_spec :
  (forall x, normalise_command x = Spec.normalize x)
  /\ (forall x, normalise_command (normalise_command x) = normalise_command x)
  /\ normalise_command (lit "  ls   -l  ") = lit "ls -l".
Proof.
  split; [exact normalise_is_collapse|].
  split; [exact normalise_idempotent|reflexivity].
Qed.

(** C3: with [nano] as the first expected word and [nano] or [vi] as the
    first typed word, two words or more on both sides give a match exactly
    when the second words are equal; fewer on either side give a match only
    by exact equality of the normalised texts (Rule 1). *)
Theorem editor_substitution :
  (forall u e,
     base_of (split (normalise_command e)) = lit "nano" ->
     base_of (split (normalise_command u)) = lit "nano"
     \/ base_of (split (normalise_command u)) = lit "vi" ->
     (2 <= List.length (split (normalise_command e))
      /\ 2 <= List.length (split (normalise_command u)) ->
      (check_command u (Some e) = true <->
       nth 1 (split (normalise_command u)) []
       = nth 1 (split (normalise_command e)) []))
     /\ (List.length (split (normalise_command e)) < 2
         \/ List.length (split (normalise_command u)) < 2 ->
         (check_command u (Some e) = true <->
          normalise_command u = normalise_command e)))
  /\ check_command (lit "vi notes.txt") (Some (lit "nano notes.txt")) = true
  /\ check_command (lit "vi other.txt") (Some (lit "nano notes.txt")) = false
  /\ check_command (lit "vi") (Some (lit "nano notes.txt")) = false.
Proof.
  split; [|repeat split; reflexivity].
  intros u e He Hu.
  apply mem_editor in Hu.
  rewrite (check_editor _ _ He Hu).
  split.
  - intros [Le Lu].
    apply Nat.ltb_lt in Le, Lu. rewrite Le, Lu. simpl andb.
    rewrite orb_true_iff, !eqb_eq. split.
    + intros [H|H]; [now rewrite H|now symmetry].
    + intros H; right; now symmetry.
  - intros Hshort.
    assert (Hlen : (1 <? List.length (split (normalise_command e)))
                   && (1 <? List.length (split (normalise_command u)))
                   = false).
    { apply andb_false_iff.
      destruct Hshort as [H|H]; [left|right]; apply Nat.ltb_ge; lia. }
    rewrite Hlen. simpl andb. rewrite orb_false_r. apply eqb_eq.
Qed.

Lemma editor_substitution_witness :
  check_command (lit "nano  a.txt") (Some (lit "nano a.txt x")) = true
  <-> nth 1 (split (normalise_command (lit "nano  a.txt"))) []
      = nth 1 (split (normalise_command (lit "nano a.txt x"))) [].
Proof.
  apply (proj1 editor_substitution (lit "nano  a.txt") (lit "nano a.txt x"));
    [reflexivity|left; reflexivity|].
  split; vm_compute; lia.
Defined.

(** C10: Rule 4 looks at the second words only; whatever follows them on
    either side, equal second words give a match. *)
Theorem editor_ignores_later_words :
  (forall u e (b f : str) (ru re : list str),
     split (normalise_command e) = lit "nano" :: f :: re ->
     split (normalise_command u) = b :: f :: ru ->
     b = lit "nano" \/ b = lit "vi" ->
     check_command u (Some e) = true)
  /\ check_command (lit "vi notes.txt -w") (Some (lit "nano notes.txt")) = true.
Proof.
  split; [|reflexivity].
  intros u e b f ru re He Hu Hb.
  rewrite check_editor.
  - rewrite He, Hu. simpl. rewrite eqb_refl. apply orb_true_r.
  - rewrite He. reflexivity.
  - rewrite Hu. apply mem_editor. exact Hb.
Qed.

Lemma editor_ignores_later_words_witness :
  check_command (lit "vi  f.c +12 -R") (Some (lit "nano f.c")) = true.
Proof.
  apply (proj1 editor_ignores_later_words
           (lit "vi  f.c +12 -R") (lit "nano f.c")
           (lit "vi") (lit "f.c") [lit "+12"; lit "-R"] []);
    [reflexivity|reflexivity|right; reflexivity].
Defined.

(** An expectation of two words or more is not a bare command. *)
Lemma not_bare e (w a : str) (rest : list str) (c : str) :
  split (normalise_command e) = w :: a :: rest ->
  List.length (split c) <= 1 ->
  eqb (normalise_command e) c = false.
Proof.
  intros He Hc. apply eqb_neq. intros H.
  rewrite H in He. rewrite He in Hc. simpl in Hc. lia.
Qed.

(** A bare expectation accepts every input that starts with it (Rules 2
    and 3 after Rule 1). *)
Lemma bare_tolerance u e (c : str) :
  c = lit "ls" \/ c = lit "history" ->
  normalise_command e = c ->
  base_of (split (normalise_command u)) = c ->
  check_command u (Some e) = true.
Proof.
  intros Hc He Hu.
  rewrite check_command_rules
    by (intros ->; rewrite normalise_nil in He;
        destruct Hc; subst c; discriminate).
  unfold rules. rewrite He, Hu.
  destruct Hc; subst c; rewrite eqb_refl; simpl andb;
    rewrite ?orb_true_r; reflexivity.
Qed.

(** An expectation with arguments rejects the bare command. *)
Lemma bare_input_rejected u e (c a : str) (rest : list str) :
  c = lit "ls" \/ c = lit "history" ->
  split (normalise_command e) = c :: a :: rest ->
  normalise_command u = c ->
  check_command u (Some e) = false.
Proof.
  intros Hc He Hu.
  rewrite check_command_rules by (intros ->; discriminate He).
  unfold rules. rewrite Hu.
  rewrite (eqb_sym c), (not_bare _ _ _ _ _ He)
    by (destruct Hc; subst c; vm_compute; lia).
  rewrite (not_bare _ _ _ _ (lit "ls") He) by (vm_compute; lia).
  rewrite (not_bare _ _ _ _ (lit "history") He) by (vm_compute; lia).
  rewrite He. simpl base_of.
  destruct Hc; subst c; reflexivity.
Qed.

(** C4: the tolerance for [ls] and [history] goes one way. A bare
    expectation accepts the command with any arguments; an expectation with
    arguments rejects the bare command. *)
Theorem bare_tolerance_one_way :
  (forall u e,
     normalise_command e = lit "ls" ->
     base_of (split (normalise_command u)) = lit "ls" ->
     check_command u (Some e) = true)
  /\ (forall u e,
        normalise_command e = lit "history" ->
        base_of (split (normalise_command u)) = lit "history" ->
        check_command u (Some e) = true)
  /\ (forall u e (a : str) (rest : list str),
        split (normalise_command e) = lit "ls" :: a :: rest ->
        normalise_command u = lit "ls" ->
        check_command u (Some e) = false)
  /\ (forall u e (a : str) (rest : list str),
        split (normalise_command e) = lit "history" :: a :: rest ->
        normalise_command u = lit "history" ->
        check_command u (Some e) = false)
  /\ check_command (lit "ls -la") (Some (lit "ls")) = true
  /\ check_command (lit "ls") (Some (lit "ls -la")) = false
  /\ check_command (lit "history 5") (Some (lit "history")) = true
  /\ check_command (lit "history") (Some (lit "history 5")) = false.
Proof.
  split; [|split; [|split; [|split; [|repeat split; reflexivity]]]].
  - intros u e. apply bare_tolerance. now left.
  - intros u e. apply bare_tolerance. now right.
  - intros u e a rest. apply bare_input_rejected. now left.
  - intros u e a rest. apply bare_input_rejected. now right.
Qed.

Lemma bare_tolerance_one_way_witness :
  check_command (lit "ls  -l /tmp") (Some (lit " ls ")) = true
  /\ check_command (lit " history") (Some (lit "history 20 x")) = false.
Proof.
  split.
  - apply (proj1 bare_tolerance_one_way (lit "ls  -l /tmp") (lit " ls "));
      reflexivity.
  - apply (proj1 (proj2 (proj2 (proj2 bare_tolerance_one_way)))
             (lit " history") (lit "history 20 x") (lit "20") [lit "x"]);
      reflexivity.
Defined.

End CheckerProperties.

(** * The session *)

Section SessionFacts.

Variable lower : str -> str.
Variable subprocess_run : list str -> run_result.
Variables t_start t_end : timestamp.

Abbreviation step := (step lower subprocess_run).
Abbreviation run := (run lower subprocess_run).
Abbreviation main := (main lower subprocess_run t_start t_end).
Abbreviation demonstrate := (demonstrate subprocess_run).

Implicit Types (s : session) (r : read) (raw : str) (level : Level).

Lemma since_app s s' (es : list event) :
  trace s' = trace s ++ es -> since s s' = es.
Proof.
  intros H. unfold since. rewrite H, skipn_app, skipn_all, Nat.sub_diag.
  reflexivity.
Qed.

Lemma trace_enter_level s :
  trace (enter_level s) = trace s ++ announce (levels s) (index s).
Proof.
  unfold enter_level, announce.
  destruct (nth_error (levels s) (index s)); reflexivity.
Qed.

Lemma levels_enter_level s : levels (enter_level s) = levels s.
Proof.
  unfold enter_level. destruct (nth_error (levels s) (index s)); reflexivity.
Qed.

Lemma index_enter_level s : index (enter_level s) = index s.
Proof.
  unfold enter_level. destruct (nth_error (levels s) (index s)); reflexivity.
Qed.

Lemma ctl_enter_level s :
  ctl (enter_level s) =
  match nth_error (levels s) (index s) with
  | Some _ => Prompting
  | None => Finished
  end.
Proof.
  unfold enter_level. destruct (nth_error (levels s) (index s)); reflexivity.
Qed.

Lemma enter_level_consistent s : consistent (enter_level s).
Proof.
  unfold consistent.
  rewrite ctl_enter_level, levels_enter_level, index_enter_level.
  destruct (nth_error (levels s) (index s)); [discriminate|discriminate].
Qed.

(** A word under construction always comes out of the scan. *)
Lemma split_scan_pending (t tok : str) : tok <> [] -> split_scan tok t <> [].
Proof.
  revert tok; induction t as [|c t IH]; intros tok Htok.
  - rewrite split_scan_end by exact Htok. discriminate.
  - rewrite split_scan_cons. destruct (isspace c).
    + destruct tok; [contradiction|discriminate].
    + apply IH. destruct tok; discriminate.
Qed.

(** The [IndexError] of [user_input.split()[0]] cannot happen: a non-empty
    stripped line has a first word. *)
Lemma first_word_exists raw :
  match strip raw with
  | [] => Some (lit "")
  | _ => nth_error (split (strip raw)) 0
  end = Some (base_of (split (strip raw))).
Proof.
  destruct (strip_tight raw) as [Hf _].
  destruct (strip raw) as [|c t]; [reflexivity|].
  simpl in Hf. unfold split. rewrite split_scan_cons, Hf.
  pose proof (split_scan_pending t [c]) as H.
  simpl app.
  destruct (split_scan [c] t); [exfalso; apply H; [discriminate|reflexivity]|].
  reflexivity.
Qed.

Lemma demonstrate_strip raw :
  demonstrate (strip raw) =
  Some (if mem (base_of (split (strip raw))) safe_commands
        then Run (split (strip raw)) :: shown (subprocess_run (split (strip raw)))
        else [Print Skipped]).
Proof.
  unfold Trainer.demonstrate. rewrite first_word_exists.
  destruct (mem (base_of (split (strip raw))) safe_commands); reflexivity.
Qed.

Lemma run_stopped s (inputs : list read) :
  ctl s <> Prompting -> run s inputs = s.
Proof.
  intros H. destruct inputs; simpl; destruct (ctl s); congruence.
Qed.

Lemma run_cons s r (rest : list read) :
  ctl s = Prompting -> run s (r :: rest) = run (step s r) rest.
Proof. intros H. simpl. rewrite H. reflexivity. Qed.

Lemma step_stopped s r : ctl s <> Prompting -> step s r = s.
Proof. intros H. unfold Trainer.step. destruct (ctl s); congruence. Qed.

(** The three branches of a turn, by the same tests as the code. *)
Lemma step_quit s level raw :
  ctl s = Prompting -> nth_error (levels s) (index s) = Some level ->
  mem (lower (strip raw)) [lit "exit"; lit "quit"] = true ->
  step s (Line raw) =
  goto Quit (emit [Print Goodbye; Write UserExited]
               (emit [Write (LevelInput (number level) (strip raw))] s)).
Proof.
  intros Hc Hl Hq. unfold Trainer.step. rewrite Hc, Hl, Hq. reflexivity.
Qed.

Lemma step_hint s level raw :
  ctl s = Prompting -> nth_error (levels s) (index s) = Some level ->
  mem (lower (strip raw)) [lit "exit"; lit "quit"] = false ->
  eqb (lower (strip raw)) (lit "hint") = true ->
  step s (Line raw) =
  emit [Print match hint level with
              | Some (c :: h) => HintText (c :: h)
              | _ => NoHint
              end]
    (emit [Write (LevelInput (number level) (strip raw))] s).
Proof.
  intros Hc Hl Hq Hh. unfold Trainer.step. rewrite Hc, Hl, Hq, Hh.
  destruct (hint level) as [[|c h]|]; reflexivity.
Qed.

Lemma step_answer s level raw :
  ctl s = Prompting -> nth_error (levels s) (index s) = Some level ->
  mem (lower (strip raw)) [lit "exit"; lit "quit"] = false ->
  eqb (lower (strip raw)) (lit "hint") = false ->
  step s (Line raw) =
  let u := strip raw in
  let s1 := emit [Check u (expected_command level)]
              (emit [Write (LevelInput (number level) u)] s) in
  if check_command u (expected_command level)
  then enter_level
         (advance
            (emit ((if mem (base_of (split u)) safe_commands
                    then Run (split u) :: shown (subprocess_run (split u))
                    else [Print Skipped]) ++ [Print Blank])
               (emit [Print Correct] s1)))
  else emit [Print Oops] s1.
Proof.
  intros Hc Hl Hq Hh. unfold Trainer.step. rewrite Hc, Hl, Hq, Hh.
  cbv zeta. rewrite demonstrate_strip. reflexivity.
Qed.

Lemma shown_no_check (res : run_result) : existsb is_check (shown res) = false.
Proof.
  destruct res as [out err code|]; [|reflexivity].
  simpl. destruct (strip out), (strip err); reflexivity.
Qed.

Lemma shown_no_run (res : run_result) : filter is_run (shown res) = [].
Proof.
  destruct res as [out err code|]; [|reflexivity].
  simpl. destruct (strip out), (strip err); reflexivity.
Qed.

Lemma shown_no_skipped (res : run_result) : filter is_skipped (shown res) = [].
Proof.
  destruct res as [out err code|]; [|reflexivity].
  simpl. destruct (strip out), (strip err); reflexivity.
Qed.

Lemma shown_no_close (res : run_result) : closed (shown res) = false.
Proof.
  destruct res as [out err code|]; [|reflexivity].
  simpl. destruct (strip out), (strip err); reflexivity.
Qed.

Lemma announce_quiet (ls : list Level) (i : nat) :
  existsb is_check (announce ls i) = false
  /\ filter is_run (announce ls i) = []
  /\ filter is_skipped (announce ls i) = []
  /\ closed (announce ls i) = false.
Proof. unfold announce. destruct (nth_error ls i); repeat split. Qed.

(** The trace of a turn that reached the checker. *)
Lemma trace_answer s level raw :
  ctl s = Prompting -> nth_error (levels s) (index s) = Some level ->
  mem (lower (strip raw)) [lit "exit"; lit "quit"] = false ->
  eqb (lower (strip raw)) (lit "hint") = false ->
  trace (step s (Line raw)) =
  let u := strip raw in
  trace s ++
  Write (LevelInput (number level) u) :: Check u (expected_command level) ::
  (if check_command u (expected_command level)
   then Print Correct ::
        (if mem (base_of (split u)) safe_commands
         then Run (split u) :: shown (subprocess_run (split u))
         else [Print Skipped])
        ++ Print Blank :: announce (levels s) (S (index s))
   else [Print Oops]).
Proof.
  intros Hc Hl Hq Hh. rewrite (step_answer _ _ _ Hc Hl Hq Hh). cbv zeta.
  destruct (check_command (strip raw) (expected_command level)).
  - rewrite trace_enter_level. simpl.
    rewrite <- !app_assoc. simpl. reflexivity.
  - simpl. rewrite <- !app_assoc. reflexivity.
Qed.

Lemma not_quit_word (w : str) :
  w <> lit "exit" -> w <> lit "quit" ->
  mem w [lit "exit"; lit "quit"] = false.
Proof.
  intros H1 H2. simpl mem.
  apply eqb_neq in H1, H2. rewrite H1, H2. reflexivity.
Qed.

Lemma quit_word (w : str) :
  w = lit "exit" \/ w = lit "quit" ->
  mem w [lit "exit"; lit "quit"] = true.
Proof. intros [->| ->]; reflexivity. Qed.

(** One turn keeps the level list and never moves the index back. *)
Lemma step_monotone s r :
  levels (step s r) = levels s /\ index s <= index (step s r).
Proof.
  destruct (ctl s) eqn:Hc;
    try (rewrite step_stopped by congruence; split; [reflexivity|lia]).
  destruct (nth_error (levels s) (index s)) as [level|] eqn:Hl.
  2:{ unfold Trainer.step. rewrite Hc, Hl. split; [reflexivity|lia]. }
  destruct r as [raw|].
  2:{ unfold Trainer.step. rewrite Hc, Hl. split; [reflexivity|simpl; lia]. }
  destruct (mem (lower (strip raw)) [lit "exit"; lit "quit"]) eqn:Hq.
  { rewrite (step_quit _ _ _ Hc Hl Hq). split; [reflexivity|simpl; lia]. }
  destruct (eqb (lower (strip raw)) (lit "hint")) eqn:Hh.
  { rewrite (step_hint _ _ _ Hc Hl Hq Hh). split; [reflexivity|simpl; lia]. }
  rewrite (step_answer _ _ _ Hc Hl Hq Hh). cbv zeta.
  destruct (check_command (strip raw) (expected_command level)).
  - rewrite levels_enter_level, index_enter_level.
    split; [reflexivity|simpl; lia].
  - split; [reflexivity|simpl; lia].
Qed.

Lemma run_monotone s (inputs : list read) :
  levels (run s inputs) = levels s /\ index s <= index (run s inputs).
Proof.
  revert s; induction inputs as [|r rest IH]; intros s.
  - simpl. destruct (ctl s); split; simpl; auto.
  - destruct (ctl s) eqn:Hc;
      try (rewrite run_stopped by congruence; split; [reflexivity|lia]).
    rewrite (run_cons _ _ _ Hc).
    destruct (IH (step s r)) as [IH1 IH2].
    destruct (step_monotone s r) as [S1 S2].
    split; [congruence|lia].
Qed.

Lemma closed_app (a b : list event) : closed (a ++ b) = closed a || closed b.
Proof. apply existsb_app. Qed.

Lemma closed_cons (e : event) (l : list event) :
  closed (e :: l) = match e with Close => true | _ => false end || closed l.
Proof. reflexivity. Qed.

(** One turn leaves the log open. *)
Lemma step_keeps_open s r : closed (trace (step s r)) = closed (trace s).
Proof.
  destruct (ctl s) eqn:Hc;
    try (rewrite step_stopped by congruence; reflexivity).
  destruct (nth_error (levels s) (index s)) as [level|] eqn:Hl.
  2:{ unfold Trainer.step. rewrite Hc, Hl. reflexivity. }
  destruct r as [raw|].
  2:{ unfold Trainer.step. rewrite Hc, Hl. reflexivity. }
  destruct (mem (lower (strip raw)) [lit "exit"; lit "quit"]) eqn:Hq.
  { rewrite (step_quit _ _ _ Hc Hl Hq). simpl.
    rewrite !closed_app. simpl. now rewrite !orb_false_r. }
  destruct (eqb (lower (strip raw)) (lit "hint")) eqn:Hh.
  { rewrite (step_hint _ _ _ Hc Hl Hq Hh). simpl.
    rewrite !closed_app. simpl. now rewrite !orb_false_r. }
  rewrite (trace_answer _ _ _ Hc Hl Hq Hh). cbv zeta.
  destruct (announce_quiet (levels s) (S (index s))) as (_ & _ & _ & Ha).
  destruct (check_command (strip raw) (expected_command level));
    [destruct (mem (base_of (split (strip raw))) safe_commands)|];
    rewrite ?closed_app, ?closed_cons, ?closed_app, ?closed_cons,
      ?shown_no_close, ?Ha;
    simpl; now rewrite ?orb_false_r.
Qed.

Lemma run_keeps_open s (inputs : list read) :
  closed (trace (run s inputs)) = closed (trace s).
Proof.
  revert s; induction inputs as [|r rest IH]; intros s.
  - simpl. destruct (ctl s); reflexivity.
  - destruct (ctl s) eqn:Hc;
      try (rewrite run_stopped by congruence; reflexivity).
    rewrite (run_cons _ _ _ Hc), IH. apply step_keeps_open.
Qed.

(** The loop always comes to an end, on one of its three ways out. *)
Lemma run_ends s (inputs : list read) :
  ctl s <> NoLevels ->
  ctl (run s inputs) = Finished \/ ctl (run s inputs) = Quit
  \/ ctl (run s inputs) = Failed.
Proof.
  revert s; induction inputs as [|r rest IH]; intros s Hs.
  - simpl. destruct (ctl s) eqn:Hc; simpl; rewrite ?Hc; auto. congruence.
  - destruct (ctl s) eqn:Hc;
      try (rewrite run_stopped by congruence; rewrite Hc; auto; fail).
    + rewrite (run_cons _ _ _ Hc). apply IH.
      clear IH. unfold Trainer.step. rewrite Hc.
      destruct (nth_error (levels s) (index s)) as [level|];
        [|congruence].
      destruct r as [raw|]; [|discriminate].
      destruct (mem _ _); [discriminate|].
      destruct (eqb _ _).
      { destruct (hint level) as [[|? ?]|]; simpl; congruence. }
      destruct (check_command _ _); [|simpl; congruence].
      destruct (Trainer.demonstrate _ _); [|discriminate].
      rewrite ctl_enter_level. destruct (nth_error _ _); discriminate.
    + congruence.
Qed.

(** Every prompt of a session is a prompt at a level: the premises of the
    statements on one turn hold all along a session. *)
Lemma step_consistent s r : consistent s -> consistent (step s r).
Proof.
  intros Hs.
  destruct (ctl s) eqn:Hc;
    try (rewrite step_stopped by congruence; exact Hs).
  destruct (nth_error (levels s) (index s)) as [level|] eqn:Hl;
    [|exfalso; exact (Hs Hc Hl)].
  destruct r as [raw|].
  2:{ unfold Trainer.step. rewrite Hc, Hl. intros H. discriminate H. }
  destruct (mem (lower (strip raw)) [lit "exit"; lit "quit"]) eqn:Hq.
  { rewrite (step_quit _ _ _ Hc Hl Hq). intros H. discriminate H. }
  destruct (eqb (lower (strip raw)) (lit "hint")) eqn:Hh.
  { rewrite (step_hint _ _ _ Hc Hl Hq Hh). intros _. simpl. congruence. }
  rewrite (step_answer _ _ _ Hc Hl Hq Hh). cbv zeta.
  destruct (check_command (strip raw) (expected_command level)).
  - apply enter_level_consistent.
  - intros _. simpl. congruence.
Qed.

Lemma prompt_has_level (loaded : list Level) (tr : list event)
      (rs : list read) :
  let s := fold_left step rs (enter_level (mkSession loaded 0 Prompting tr)) in
  ctl s = Prompting ->
  exists level, nth_error (levels s) (index s) = Some level.
Proof.
  intros s.
  assert (Hs : consistent s).
  { subst s. generalize (enter_level_consistent (mkSession loaded 0 Prompting tr)).
    generalize (enter_level (mkSession loaded 0 Prompting tr)).
    induction rs as [|r rs IH]; intros s0 H0; simpl; [exact H0|].
    apply IH, step_consistent, H0. }
  intros Hc. specialize (Hs Hc).
  destruct (nth_error (levels s) (index s)) as [level|];
    [exists level; reflexivity|contradiction].
Qed.

(** C7: the input is classified before it is checked. At every prompt,
    with [u] the stripped line: if [u] lower-cases to [exit] or [quit] the
    session stops there, whatever follows, and the checker is not called; if
    it lower-cases to [hint] the hint (or the fallback) is printed, the level
    stays and the checker is not called; every other input is given to the
    checker with the expected command of the current level. *)
Theorem classification_precedes_matching s level raw :
  ctl s = Prompting ->
  nth_error (levels s) (index s) = Some level ->
  let u := strip raw in
  let s' := step s (Line raw) in
  let logged := Write (LevelInput (number level) u) in
  (lower u = lit "exit" \/ lower u = lit "quit" ->
   ctl s' = Quit /\ index s' = index s
   /\ trace s' = trace s ++ [logged; Print Goodbye; Write UserExited]
   /\ forall rest, run s (Line raw :: rest) = s')
  /\ (lower u = lit "hint" ->
      ctl s' = Prompting /\ index s' = index s
      /\ trace s' = trace s ++
                    [logged;
                     Print match hint level with
                           | Some (c :: h) => HintText (c :: h)
                           | _ => NoHint
                           end])
  /\ (lower u <> lit "exit" -> lower u <> lit "quit" ->
      lower u <> lit "hint" ->
      exists rest,
        trace s' = trace s ++
                   logged :: Check u (expected_command level) :: rest
        /\ existsb is_check rest = false).
Proof.
  intros Hc Hl u s' logged. subst u s' logged.
  split; [|split].
  - intros Hq. apply quit_word in Hq.
    rewrite (step_quit _ _ _ Hc Hl Hq).
    repeat split.
    + simpl. rewrite <- app_assoc. reflexivity.
    + intros rest. rewrite (run_cons _ _ _ Hc).
      rewrite (step_quit _ _ _ Hc Hl Hq).
      apply run_stopped. discriminate.
  - intros Hh.
    assert (Hq : mem (lower (strip raw)) [lit "exit"; lit "quit"] = false)
      by (rewrite Hh; reflexivity).
    apply eqb_eq in Hh.
    rewrite (step_hint _ _ _ Hc Hl Hq Hh).
    repeat split; [exact Hc|].
    simpl. rewrite <- app_assoc. reflexivity.
  - intros H1 H2 H3.
    pose proof (not_quit_word _ H1 H2) as Hq.
    apply eqb_neq in H3.
    rewrite (trace_answer _ _ _ Hc Hl Hq H3). cbv zeta.
    eexists. split; [reflexivity|].
    destruct (announce_quiet (levels s) (S (index s))) as (Ha & _).
    destruct (check_command (strip raw) (expected_command level));
      [|reflexivity].
    destruct (mem (base_of (split (strip raw))) safe_commands); simpl;
      rewrite ?existsb_app, ?shown_no_check; simpl; exact Ha.
Qed.

(** C8: after the checker accepted an input, the command is run exactly when
    its first word is in [safe_commands], and reported as skipped exactly when
    it is not; whatever the run gives (any return code, an exception), the
    session moves to the next level. Moving on depends on the verdict only:
    a rejected input runs nothing and stays on the level. *)
Theorem demonstration_never_blocks s level raw :
  ctl s = Prompting ->
  nth_error (levels s) (index s) = Some level ->
  let u := strip raw in
  mem (lower u) [lit "exit"; lit "quit"] = false ->
  eqb (lower u) (lit "hint") = false ->
  let s' := step s (Line raw) in
  let safe := mem (base_of (split u)) safe_commands in
  (check_command u (expected_command level) = true ->
   index s' = S (index s)
   /\ (ctl s' = Prompting \/ ctl s' = Finished)
   /\ filter is_run (since s s') = (if safe then [Run (split u)] else [])
   /\ filter is_skipped (since s s')
      = (if safe then [] else [Print Skipped]))
  /\ (check_command u (expected_command level) = false ->
      index s' = index s /\ ctl s' = Prompting
      /\ filter is_run (since s s') = []
      /\ filter is_skipped (since s s') = []).
Proof.
  intros Hc Hl u Hq Hh s' safe. subst u s' safe.
  pose proof (trace_answer _ _ _ Hc Hl Hq Hh) as Ht.
  pose proof (step_answer _ _ _ Hc Hl Hq Hh) as Hs.
  cbv zeta in Ht, Hs.
  destruct (announce_quiet (levels s) (S (index s))) as (_ & Har & Hak & _).
  split; intros Hv; rewrite Hv in Ht, Hs.
  - rewrite (since_app _ _ _ Ht). rewrite Hs.
    rewrite index_enter_level, ctl_enter_level.
    split; [reflexivity|].
    split.
    { match goal with
      | |- context [match ?x with Some _ => _ | None => _ end] => destruct x
      end; auto. }
    destruct (mem (base_of (split (strip raw))) safe_commands);
      cbn [filter is_run is_skipped app];
      rewrite ?filter_app, ?shown_no_run, ?shown_no_skipped;
      cbn [filter is_run is_skipped app];
      rewrite Har, Hak; split; reflexivity.
  - rewrite (since_app _ _ _ Ht). rewrite Hs.
    repeat split. exact Hc.
Qed.

(** C9: the level list is the one that was loaded, all along, and the index
    of the current level never decreases: in one turn of the loop, over any
    run of turns, and from the start of [main]. *)
Theorem levels_fixed_index_monotone :
  (forall s r, levels (step s r) = levels s /\ index s <= index (step s r))
  /\ (forall s (rs : list read),
        levels (fold_left step rs s) = levels s
        /\ index s <= index (fold_left step rs s))
  /\ (forall s (inputs : list read),
        levels (run s inputs) = levels s /\ index s <= index (run s inputs))
  /\ (forall (loaded : list Level) (inputs : list read),
        levels (main loaded inputs) = loaded).
Proof.
  split; [exact step_monotone|].
  split; [|split; [exact run_monotone|]].
  - intros s rs; revert s.
    induction rs as [|r rs IH]; intros s; simpl; [split; [reflexivity|lia]|].
    destruct (IH (step s r)) as [I1 I2].
    destruct (step_monotone s r) as [S1 S2].
    split; [congruence|lia].
  - intros loaded inputs. unfold Trainer.main.
    destruct loaded as [|l ls]; [reflexivity|].
    simpl levels.
    rewrite (proj1 (run_monotone _ _)), levels_enter_level. reflexivity.
Qed.

(** With levels to play, every way out of the loop (all levels solved, exit
    or quit, an exception) ends the log with the end-of-session line and
    closes it, once. *)
Lemma session_end_recorded (loaded : list Level) (inputs : list read) :
  loaded <> [] ->
  exists tr,
    trace (main loaded inputs) = tr ++ [Write (SessionEnded t_end); Close]
    /\ closed tr = false
    /\ (ctl (main loaded inputs) = Finished \/ ctl (main loaded inputs) = Quit
        \/ ctl (main loaded inputs) = Failed).
Proof.
  intros Hne. destruct loaded as [|l ls]; [contradiction|].
  unfold Trainer.main. eexists. split; [reflexivity|]. split.
  - rewrite run_keeps_open, trace_enter_level, closed_app.
    destruct (announce_quiet (l :: ls) 0) as (_ & _ & _ & Ha).
    simpl in Ha |- *. unfold closed in Ha. simpl in Ha. exact Ha.
  - simpl ctl. apply run_ends. rewrite ctl_enter_level.
    destruct (nth_error _ _); discriminate.
Qed.

(** C2, at the early exit: with no level loaded, [main] writes the start
    line and "No levels loaded. Exiting.", closes the log and returns; no
    end-of-session line, with or without a time, is written. *)
Theorem no_levels_exit_unstamped (inputs : list read) :
  trace (main [] inputs)
  = [Write (SessionStarted t_start); Print NoLevelsFound;
     Write NoLevelsLoaded; Close]
  /\ ctl (main [] inputs) = NoLevels
  /\ written (trace (main [] inputs)) = [SessionStarted t_start; NoLevelsLoaded]
  /\ forall t, ~ In (SessionEnded t) (written (trace (main [] inputs))).
Proof.
  repeat split.
  intros t [H|[H|[]]]; discriminate H.
Qed.

End SessionFacts.

(** * A concrete session *)

Section SessionExamples.

Lemma classification_precedes_matching_witness :
  ctl (step ascii_lower Demo.no_binaries Demo.first_prompt (Line (lit " Quit ")))
  = Quit
  /\ trace (step ascii_lower Demo.no_binaries Demo.first_prompt
              (Line (lit "HINT")))
     = trace Demo.first_prompt ++
       [Write (LevelInput (Some 1%Z) (lit "HINT"));
        Print (HintText (lit "print the working directory"))].
Proof.
  destruct (classification_precedes_matching ascii_lower Demo.no_binaries
              Demo.first_prompt Demo.level1 (lit " Quit ")
              eq_refl eq_refl) as (Hquit & _).
  destruct (classification_precedes_matching ascii_lower Demo.no_binaries
              Demo.first_prompt Demo.level1 (lit "HINT")
              eq_refl eq_refl) as (_ & Hhint & _).
  split.
  - apply Hquit. right. reflexivity.
  - apply Hhint. reflexivity.
Defined.

Lemma demonstration_never_blocks_witness :
  index (step ascii_lower Demo.no_binaries Demo.first_prompt (Line (lit "pwd")))
  = 1
  /\ index (step ascii_lower Demo.always_failing Demo.first_prompt
              (Line (lit "pwd")))
     = 1.
Proof.
  split.
  - apply (demonstration_never_blocks ascii_lower Demo.no_binaries
             Demo.first_prompt Demo.level1 (lit "pwd")
             eq_refl eq_refl eq_refl eq_refl).
    reflexivity.
  - apply (demonstration_never_blocks ascii_lower Demo.always_failing
             Demo.first_prompt Demo.level1 (lit "pwd")
             eq_refl eq_refl eq_refl eq_refl).
    reflexivity.
Defined.

(** The session of the specification: a wrong answer, a hint, then the two
    levels solved, the second with an argument; the commands cannot be
    started and the session completes all the same. *)
Example two_levels_completed :
  let final :=
    main ascii_lower Demo.no_binaries (lit "T0") (lit "T1") Demo.two_levels
      (map Line [lit "wrong"; lit "hint"; lit "pwd"; lit "ls -l"]) in
  ctl final = Finished /\ index final = 2
  /\ written (trace final)
     = [SessionStarted (lit "T0");
        LevelInput (Some 1%Z) (lit "wrong");
        LevelInput (Some 1%Z) (lit "hint");
        LevelInput (Some 1%Z) (lit "pwd");
        LevelInput (Some 2%Z) (lit "ls -l");
        SessionEnded (lit "T1")]
  /\ filter is_check (trace final)
     = [Check (lit "wrong") (Some (lit "pwd"));
        Check (lit "pwd") (Some (lit "pwd"));
        Check (lit "ls -l") (Some (lit "ls"))]
  /\ filter is_run (trace final)
     = [Run [lit "pwd"]; Run [lit "ls"; lit "-l"]].
Proof. vm_compute. repeat split. Qed.

(** Leaving in the middle: the line is logged, not checked, and the log is
    ended and closed. *)
Example quit_mid_level :
  let final :=
    main ascii_lower Demo.no_binaries (lit "T0") (lit "T1") Demo.two_levels
      (map Line [lit "pwd"; lit "EXIT"; lit "ls"]) in
  ctl final = Quit /\ index final = 1
  /\ written (trace final)
     = [SessionStarted (lit "T0");
        LevelInput (Some 1%Z) (lit "pwd");
        LevelInput (Some 2%Z) (lit "EXIT");
        UserExited;
        SessionEnded (lit "T1")]
  /\ filter is_check (trace final) = [Check (lit "pwd") (Some (lit "pwd"))]
  /\ closed (trace final) = true.
Proof. vm_compute. repeat split. Qed.

(** The end of the input in the middle of a level is an [EOFError]: the log
    is ended and closed all the same. *)
Example input_ends_mid_level :
  let final :=
    main ascii_lower Demo.no_binaries (lit "T0") (lit "T1") Demo.two_levels
      (map Line [lit "pwd"]) in
  ctl final = Failed
  /\ written (trace final)
     = [SessionStarted (lit "T0");
        LevelInput (Some 1%Z) (lit "pwd");
        SessionEnded (lit "T1")]
  /\ closed (trace final) = true.
Proof. vm_compute. repeat split. Qed.

End SessionExamples.

(** * More on the checker *)

Section NormalForm.
Import Observe.

Implicit Types (x y u e : str).

Lemma normalise_words x : normalise_command x = join (lit " ") (split x).
Proof. unfold normalise_command. now rewrite split_strip. Qed.

Lemma norm_eq_iff_words x y :
  normalise_command x = normalise_command y <-> split x = split y.
Proof.
  split; intros H.
  - rewrite <- (split_normalise x), <- (split_normalise y). now rewrite H.
  - rewrite !normalise_words. now rewrite H.
Qed.

(** The normal form tells the word sequences apart and nothing else: two
    texts have the same normal form exactly when [split] gives the same
    words for both, and the words of a normal form are those of the text. *)
Theorem same_normal_form_same_words x y :
  (normalise_command x = normalise_command y <-> split x = split y)
  /\ split (normalise_command x) = split x.
Proof. split; [apply norm_eq_iff_words|apply split_normalise]. Qed.

Lemma split_nil_blank x : split x = [] <-> blank x.
Proof.
  split.
  - unfold split. induction x as [|c x IH]; intros H; [constructor|].
    rewrite split_scan_cons in H.
    destruct (isspace c) eqn:Ec.
    + constructor; [exact Ec|apply IH; exact H].
    + exfalso. revert H. apply split_scan_pending. discriminate.
  - intros H. unfold split. rewrite split_scan_blank by exact H. reflexivity.
Qed.

(** The normal form is empty exactly for the texts made of whitespace only
    (the empty text among them). *)
Theorem normalise_empty_iff_blank x : normalise_command x = [] <-> blank x.
Proof.
  rewrite <- split_nil_blank, normalise_words. split.
  - destruct (split x) as [|w ws] eqn:E; [reflexivity|].
    intros H. exfalso. revert H. apply join_nonempty.
    pose proof (split_words x) as Hw. rewrite E in Hw.
    inversion Hw as [|? ? [Hne _] _]. exact Hne.
  - intros ->. reflexivity.
Qed.

Lemma single_spaced_app_word (w t : str) :
  spaceless w -> single_spaced t -> single_spaced (w ++ t).
Proof.
  intros Hw Ht. induction Hw as [|c w Hc Hw IH]; [exact Ht|].
  simpl. split; [|exact IH].
  intros H. congruence.
Qed.

Lemma single_spaced_join (ws : list str) :
  Forall word ws -> single_spaced (join (lit " ") ws).
Proof.
  induction ws as [|w ws IH]; intros Hws; [exact I|].
  inversion Hws as [|? ? [Hne Hw] Hws']; subst.
  destruct ws as [|w' ws].
  - simpl. rewrite <- (app_nil_r w).
    apply single_spaced_app_word; [exact Hw|exact I].
  - rewrite join_cons2. apply single_spaced_app_word; [exact Hw|].
    change (lit " " ++ join (lit " ") (w' :: ws))
      with (32%N :: join (lit " ") (w' :: ws)).
    split.
    + intros _. split; [reflexivity|].
      apply (join_tight _ Hws').
    + apply IH. exact Hws'.
Qed.

(** The shape of a normal form: no whitespace at either end, and inside no
    whitespace character but the space, never two in a row. *)
Theorem normalise_shape x :
  tight (normalise_command x)
  /\ tight (rev (normalise_command x))
  /\ single_spaced (normalise_command x).
Proof.
  unfold normalise_command.
  pose proof (split_words (strip x)) as Hw.
  destruct (join_tight _ Hw) as [Hf Hb].
  repeat split; [exact Hf|exact Hb|].
  apply single_spaced_join. exact Hw.
Qed.

Lemma collapse_length (t : str) :
  List.length (Spec.collapse t) <= List.length t.
Proof.
  induction t as [|c t IH]; [apply le_n|].
  destruct t as [|d t].
  - simpl. destruct (isspace c); apply le_n.
  - rewrite collapse_cons2.
    destruct (isspace c); [destruct (isspace d)|];
      simpl in IH |- *; lia.
Qed.

Lemma strip_length x : List.length (strip x) <= List.length x.
Proof.
  unfold strip.
  destruct (lstrip_decompose x) as (b1 & _ & H1).
  destruct (rstrip_decompose (lstrip x)) as (b2 & _ & H2).
  apply (f_equal (@List.length char)) in H1, H2.
  rewrite length_app in H1, H2. lia.
Qed.

(** Normalising never makes a text longer. *)
Theorem normalise_no_longer x :
  List.length (normalise_command x) <= List.length x.
Proof.
  rewrite normalise_is_collapse. unfold Spec.normalize.
  pose proof (collapse_length (strip x)). pose proof (strip_length x). lia.
Qed.

End NormalForm.

Section Verdicts.

Implicit Types (u e : str).

Lemma same_words_same_norm u u' :
  split u = split u' -> normalise_command u = normalise_command u'.
Proof. apply norm_eq_iff_words. Qed.

Lemma words_nonempty e : split e <> [] -> e <> [].
Proof. intros H ->. apply H. reflexivity. Qed.

(** The verdict looks at the words of the input only: inputs with the same
    words, however they are spaced, get the same verdict for every
    expectation, absent or not. *)
Theorem verdict_depends_on_words u u' (expected : option str) :
  split u = split u' ->
  check_command u expected = check_command u' expected.
Proof.
  intros H. apply same_words_same_norm in H.
  unfold check_command. rewrite H. reflexivity.
Qed.

Lemma verdict_depends_on_words_witness :
  check_command (lit "  ls    -l ") (Some (lit "ls -l"))
  = check_command (lit "ls -l") (Some (lit "ls -l")).
Proof.
  apply (verdict_depends_on_words (lit "  ls    -l ") (lit "ls -l")).
  reflexivity.
Defined.

(** The same on the other side, for an expectation with at least one word:
    its spacing does not matter. *)
Theorem expectation_spacing_irrelevant u e e' :
  split e = split e' -> split e <> [] ->
  check_command u (Some e) = check_command u (Some e').
Proof.
  intros H Hne.
  rewrite !check_command_rules
    by (apply words_nonempty; congruence).
  apply same_words_same_norm in H.
  unfold rules. rewrite H. reflexivity.
Qed.

Lemma expectation_spacing_irrelevant_witness :
  check_command (lit "vi a.txt") (Some (lit " nano   a.txt "))
  = check_command (lit "vi a.txt") (Some (lit "nano a.txt")).
Proof.
  apply (expectation_spacing_irrelevant (lit "vi a.txt")
           (lit " nano   a.txt ") (lit "nano a.txt")).
  - reflexivity.
  - vm_compute. discriminate.
Defined.

Lemma words_accepted u e :
  e <> [] -> split u = split e -> check_command u (Some e) = true.
Proof.
  intros He H. apply same_words_same_norm in H.
  rewrite check_command_rules by exact He.
  unfold rules. rewrite H, eqb_refl. reflexivity.
Qed.

(** The expected command itself, typed with any spacing, is accepted. *)
Theorem expected_command_accepted u e :
  e <> [] -> split u = split e -> check_command u (Some e) = true.
Proof. apply words_accepted. Qed.

Lemma expected_command_accepted_witness :
  check_command (lit " cp  a   b ") (Some (lit "cp a b")) = true.
Proof.
  apply (expected_command_accepted (lit " cp  a   b ") (lit "cp a b"));
    [discriminate|reflexivity].
Defined.

(** An accepted input starts with the command word of the expectation, or
    with [vi] where [nano] is expected: no other command is ever taken for
    the expected one. *)
Theorem accepted_same_command u e :
  check_command u (Some e) = true ->
  base_of (split u) = base_of (split e)
  \/ (base_of (split e) = lit "nano" /\ base_of (split u) = lit "vi").
Proof.
  intros H.
  destruct e as [|c e]; [discriminate H|].
  rewrite check_command_rules in H by discriminate.
  unfold rules in H. rewrite !split_normalise in H.
  repeat (apply orb_true_iff in H; destruct H as [H|H]).
  - apply eqb_eq, norm_eq_iff_words in H. left. now rewrite H.
  - apply andb_true_iff in H as [He Hu]. apply eqb_eq in He, Hu.
    left. rewrite Hu, <- (split_normalise (c :: e)), He. reflexivity.
  - apply andb_true_iff in H as [He Hu]. apply eqb_eq in He, Hu.
    left. rewrite Hu, <- (split_normalise (c :: e)), He. reflexivity.
  - apply andb_true_iff in H as [H _].
    apply andb_true_iff in H as [H _].
    apply andb_true_iff in H as [He Hu].
    apply eqb_eq in He. apply mem_editor in Hu.
    destruct Hu as [Hu|Hu]; [left; congruence|right; split; assumption].
Qed.

Lemma accepted_same_command_witness :
  base_of (split (lit "vi  n.txt")) = base_of (split (lit "nano n.txt"))
  \/ (base_of (split (lit "nano n.txt")) = lit "nano"
      /\ base_of (split (lit "vi  n.txt")) = lit "vi").
Proof.
  apply (accepted_same_command (lit "vi  n.txt") (lit "nano n.txt")).
  reflexivity.
Defined.

(** Away from the three tolerant rules (the expectation is not the bare [ls]
    or [history] and does not start with [nano]) only the expected words
    themselves are accepted. *)
Theorem plain_command_exact u e :
  e <> [] ->
  normalise_command e <> lit "ls" ->
  normalise_command e <> lit "history" ->
  base_of (split e) <> lit "nano" ->
  (check_command u (Some e) = true <-> split u = split e).
Proof.
  intros He H1 H2 H3.
  rewrite check_command_rules by exact He.
  unfold rules. rewrite !split_normalise.
  apply eqb_neq in H1, H2, H3. rewrite H1, H2, H3. simpl.
  rewrite !orb_false_r, eqb_eq.
  apply norm_eq_iff_words.
Qed.

Lemma plain_command_exact_witness :
  check_command (lit "mkdir  demo") (Some (lit "mkdir demo")) = true
  <-> split (lit "mkdir  demo") = split (lit "mkdir demo").
Proof.
  apply (plain_command_exact (lit "mkdir  demo") (lit "mkdir demo"));
    vm_compute; discriminate.
Defined.

(** With the bare [ls] (or the bare [history]) expected, the accepted
    inputs are exactly those whose first word is [ls] (or [history]):
    any arguments, but no other command, not even one that begins with the
    same letters. *)
Theorem bare_command_accepts_exactly u e (c : str) :
  c = lit "ls" \/ c = lit "history" ->
  normalise_command e = c ->
  (check_command u (Some e) = true <-> base_of (split u) = c).
Proof.
  intros Hc He.
  rewrite check_command_rules
    by (intros ->; rewrite normalise_nil in He;
        destruct Hc; subst c; discriminate).
  unfold rules. rewrite !split_normalise, He.
  assert (Hb : base_of (split e) = c).
  { rewrite <- (split_normalise e), He. destruct Hc; subst c; reflexivity. }
  rewrite Hb.
  assert (Hexact : eqb (normalise_command u) c = true ->
                   base_of (split u) = c).
  { intros H. apply eqb_eq in H.
    rewrite <- (split_normalise u), H. destruct Hc; subst c; reflexivity. }
  destruct Hc; subst c; cbn [eqb N.eqb Pos.eqb lit map list_ascii_of_string
                              N_of_ascii andb orb];
    rewrite ?andb_false_r, ?orb_false_r; split.
  - intros H. apply orb_true_iff in H as [H|H];
      [apply Hexact; exact H|apply eqb_eq; exact H].
  - intros H. apply eqb_eq in H. rewrite H. apply orb_true_r.
  - intros H. apply orb_true_iff in H as [H|H];
      [apply Hexact; exact H|apply eqb_eq; exact H].
  - intros H. apply eqb_eq in H. rewrite H. apply orb_true_r.
Qed.

Lemma bare_command_accepts_exactly_witness :
  check_command (lit "lsblk") (Some (lit "ls")) = true
  <-> base_of (split (lit "lsblk")) = lit "ls".
Proof.
  apply (bare_command_accepts_exactly (lit "lsblk") (lit "ls") (lit "ls"));
    [left; reflexivity|reflexivity].
Defined.

(** With [nano] and a file name expected, the accepted inputs are exactly
    those that start with [nano] or [vi] and have that file name as their
    second word. *)
Theorem editor_accepts_exactly u e (f : str) (re : list str) :
  split e = lit "nano" :: f :: re ->
  (check_command u (Some e) = true <->
   exists b ru, split u = b :: f :: ru /\ (b = lit "nano" \/ b = lit "vi")).
Proof.
  intros He.
  assert (Hne : e <> []) by (intros ->; discriminate He).
  split.
  - rewrite check_command_rules by exact Hne.
    unfold rules. rewrite !split_normalise, He. intros H.
    repeat (apply orb_true_iff in H; destruct H as [H|H]).
    + apply eqb_eq, norm_eq_iff_words in H.
      exists (lit "nano"), re. split; [congruence|now left].
    + apply andb_true_iff in H as [H _]. apply eqb_eq in H.
      apply (f_equal split) in H. rewrite split_normalise, He in H.
      discriminate H.
    + apply andb_true_iff in H as [H _]. apply eqb_eq in H.
      apply (f_equal split) in H. rewrite split_normalise, He in H.
      discriminate H.
    + apply andb_true_iff in H as [H Hf].
      apply andb_true_iff in H as [H Hlen].
      apply andb_true_iff in H as [_ Hb].
      apply andb_true_iff in Hlen as [_ Hlen].
      apply Nat.ltb_lt in Hlen. apply eqb_eq in Hf.
      apply mem_editor in Hb.
      destruct (split u) as [|b [|g ru]]; simpl in Hlen; try lia.
      simpl in Hf, Hb. subst g. exists b, ru. split; [reflexivity|exact Hb].
  - intros (b & ru & Hu & Hb).
    rewrite check_editor.
    + rewrite !split_normalise, He, Hu. simpl.
      rewrite eqb_refl. apply orb_true_r.
    + rewrite split_normalise, He. reflexivity.
    + rewrite split_normalise, Hu. apply mem_editor. exact Hb.
Qed.

Lemma editor_accepts_exactly_witness :
  check_command (lit "emacs notes.txt") (Some (lit "nano notes.txt")) = true
  <-> exists b ru,
        split (lit "emacs notes.txt") = b :: lit "notes.txt" :: ru
        /\ (b = lit "nano" \/ b = lit "vi").
Proof.
  apply (editor_accepts_exactly (lit "emacs notes.txt")
           (lit "nano notes.txt") (lit "notes.txt") []).
  reflexivity.
Defined.

End Verdicts.

(** * More on the session *)

Section SessionLife.
Import Observe.

Variable lower : str -> str.
Variable subprocess_run : list str -> run_result.
Variables t_start t_end : timestamp.

Abbreviation step := (step lower subprocess_run).
Abbreviation run := (run lower subprocess_run).
Abbreviation main := (main lower subprocess_run t_start t_end).

Implicit Types (s : session) (r : read) (raw : str) (level : Level).

Abbreviation demo := (demonstration subprocess_run).

(** The cases of a turn, with the session each one leads to written out:
    a property that holds in each case holds of the turn. *)
Lemma step_elim (P : session -> session -> Prop) s r :
  (ctl s <> Prompting \/ nth_error (levels s) (index s) = None -> P s s) ->
  (forall level,
     ctl s = Prompting -> nth_error (levels s) (index s) = Some level ->
     r = ReadRaised ->
     P s (mkSession (levels s) (index s) Failed (trace s))) ->
  (forall level raw,
     ctl s = Prompting -> nth_error (levels s) (index s) = Some level ->
     r = Line raw ->
     mem (lower (strip raw)) [lit "exit"; lit "quit"] = true ->
     P s (mkSession (levels s) (index s) Quit
            (trace s ++ [Write (LevelInput (number level) (strip raw));
                         Print Goodbye; Write UserExited]))) ->
  (forall level raw,
     ctl s = Prompting -> nth_error (levels s) (index s) = Some level ->
     r = Line raw ->
     mem (lower (strip raw)) [lit "exit"; lit "quit"] = false ->
     eqb (lower (strip raw)) (lit "hint") = true ->
     P s (mkSession (levels s) (index s) Prompting
            (trace s ++ [Write (LevelInput (number level) (strip raw));
                         Print match hint level with
                               | Some (c :: h) => HintText (c :: h)
                               | _ => NoHint
                               end]))) ->
  (forall level raw,
     ctl s = Prompting -> nth_error (levels s) (index s) = Some level ->
     r = Line raw ->
     mem (lower (strip raw)) [lit "exit"; lit "quit"] = false ->
     eqb (lower (strip raw)) (lit "hint") = false ->
     check_command (strip raw) (expected_command level) = false ->
     P s (mkSession (levels s) (index s) Prompting
            (trace s ++ [Write (LevelInput (number level) (strip raw));
                         Check (strip raw) (expected_command level);
                         Print Oops]))) ->
  (forall level raw,
     ctl s = Prompting -> nth_error (levels s) (index s) = Some level ->
     r = Line raw ->
     mem (lower (strip raw)) [lit "exit"; lit "quit"] = false ->
     eqb (lower (strip raw)) (lit "hint") = false ->
     check_command (strip raw) (expected_command level) = true ->
     P s (mkSession (levels s) (S (index s))
            match nth_error (levels s) (S (index s)) with
            | Some _ => Prompting
            | None => Finished
            end
            (trace s ++
             Write (LevelInput (number level) (strip raw))
             :: Check (strip raw) (expected_command level)
             :: Print Correct
             :: demo (strip raw)
                ++ Print Blank :: announce (levels s) (S (index s))))) ->
  P s (step s r).
Proof.
  destruct (ctl s) eqn:Hc;
    try (intros Hidle _ _ _ _ _; rewrite step_stopped by congruence;
         apply Hidle; left; congruence).
  destruct (nth_error (levels s) (index s)) as [level|] eqn:Hl.
  2:{ intros Hidle _ _ _ _ _.
      unfold Trainer.step. rewrite Hc, Hl. apply Hidle. now right. }
  destruct r as [raw|].
  2:{ intros _ Hfail _ _ _ _.
      unfold Trainer.step. rewrite Hc, Hl. now apply (Hfail level). }
  destruct (mem (lower (strip raw)) [lit "exit"; lit "quit"]) eqn:Hq.
  { intros _ _ Hquit _ _ _.
    rewrite (step_quit _ subprocess_run _ _ _ Hc Hl Hq).
    unfold goto, emit. simpl. rewrite <- app_assoc.
    now apply Hquit. }
  destruct (eqb (lower (strip raw)) (lit "hint")) eqn:Hh.
  { intros _ _ _ Hhint _ _.
    rewrite (step_hint _ subprocess_run _ _ _ Hc Hl Hq Hh).
    unfold emit. simpl. rewrite <- app_assoc, Hc.
    now apply Hhint. }
  pose proof (trace_answer _ subprocess_run _ _ _ Hc Hl Hq Hh) as Ht.
  pose proof (step_answer _ subprocess_run _ _ _ Hc Hl Hq Hh) as Hs.
  cbv zeta in Ht, Hs.
  destruct (check_command (strip raw) (expected_command level)) eqn:Hv.
  - intros _ _ _ _ _ Hacc.
    specialize (Hacc level raw eq_refl eq_refl eq_refl Hq Hh Hv).
    fold (demonstration subprocess_run (strip raw)) in Ht.
    assert (E : step s (Line raw)
                = mkSession (levels (step s (Line raw)))
                    (index (step s (Line raw))) (ctl (step s (Line raw)))
                    (trace (step s (Line raw))))
      by (destruct (step s (Line raw)); reflexivity).
    rewrite E, Ht. rewrite Hs.
    rewrite levels_enter_level, index_enter_level, ctl_enter_level.
    exact Hacc.
  - intros _ _ _ _ Hrej _.
    rewrite Hs. unfold emit. simpl. rewrite <- !app_assoc, Hc.
    now apply Hrej.
Qed.

(** A property kept by every turn and by the end of the input is kept by
    the loop. *)
Lemma run_invariant (I : session -> Prop) :
  (forall s r, I s -> I (step s r)) ->
  (forall s, ctl s = Prompting -> I s -> I (goto Failed s)) ->
  forall (inputs : list read) s, I s -> I (run s inputs).
Proof.
  intros Hstep Heof inputs.
  induction inputs as [|r rest IH]; intros s Hs.
  - simpl. destruct (ctl s) eqn:Hc; auto.
  - destruct (ctl s) eqn:Hc;
      try (rewrite run_stopped by congruence; exact Hs).
    rewrite (run_cons _ _ _ _ _ Hc). apply IH, Hstep, Hs.
Qed.

Lemma main_loop (l : Level) (ls : list Level) (inputs : list read) :
  main (l :: ls) inputs =
  emit [Write (SessionEnded t_end); Close]
    (run (enter_level
            (mkSession (l :: ls) 0 Prompting
               [Write (SessionStarted t_start); Print Welcome]))
         inputs).
Proof. reflexivity. Qed.

Lemma first_level (l : Level) (ls : list Level) (tr : list event) :
  enter_level (mkSession (l :: ls) 0 Prompting tr)
  = mkSession (l :: ls) 0 Prompting (tr ++ announce (l :: ls) 0).
Proof. reflexivity. Qed.

(** *** Only allow-listed commands are started *)

Lemma allowed_app (a b : list event) :
  forallb run_allowed a = true -> forallb run_allowed b = true ->
  forallb run_allowed (a ++ b) = true.
Proof. intros Ha Hb. rewrite forallb_app, Ha, Hb. reflexivity. Qed.

Lemma allowed_shown (res : run_result) : forallb run_allowed (shown res) = true.
Proof.
  destruct res as [out err code|]; [|reflexivity].
  simpl. destruct (strip out), (strip err); reflexivity.
Qed.

Lemma allowed_announce (ls : list Level) (i : nat) :
  forallb run_allowed (announce ls i) = true.
Proof. unfold announce. destruct (nth_error ls i); reflexivity. Qed.

Lemma allowed_demo (u : str) : forallb run_allowed (demo u) = true.
Proof.
  unfold demonstration.
  destruct (mem (base_of (split u)) safe_commands) eqn:E; [|reflexivity].
  cbn [forallb run_allowed]. rewrite E. apply allowed_shown.
Qed.

Lemma step_allowed s r :
  forallb run_allowed (trace s) = true ->
  forallb run_allowed (trace (step s r)) = true.
Proof.
  apply (step_elim
           (fun s s' => forallb run_allowed (trace s) = true ->
                        forallb run_allowed (trace s') = true)).
  - intros _ H. exact H.
  - intros level _ _ _ H. exact H.
  - intros level raw _ _ _ _ H. cbn [trace].
    apply allowed_app; [exact H|reflexivity].
  - intros level raw _ _ _ _ _ H. cbn [trace].
    apply allowed_app; [exact H|reflexivity].
  - intros level raw _ _ _ _ _ _ H. cbn [trace].
    apply allowed_app; [exact H|reflexivity].
  - intros level raw _ _ _ _ _ _ H. cbn [trace].
    apply allowed_app; [exact H|].
    cbn [forallb run_allowed andb].
    apply allowed_app; [apply allowed_demo|apply allowed_announce].
Qed.

(** Whatever is typed, the only commands a session starts are commands whose
    first word is in [safe_commands]. *)
Theorem only_allowed_commands_run (loaded : list Level) (inputs : list read)
        (argv : list str) :
  In (Run argv) (trace (main loaded inputs)) ->
  mem (base_of argv) safe_commands = true.
Proof.
  assert (H : forallb run_allowed (trace (main loaded inputs)) = true).
  { destruct loaded as [|l ls]; [reflexivity|].
    rewrite main_loop. cbn [emit trace].
    apply allowed_app; [|reflexivity].
    apply (run_invariant
             (fun s => forallb run_allowed (trace s) = true));
      [exact step_allowed|intros s _ Hs; exact Hs|].
    rewrite first_level. cbn [trace].
    apply allowed_app; [reflexivity|apply allowed_announce]. }
  intros Hin. rewrite forallb_forall in H. exact (H _ Hin).
Qed.

(** *** A level without an expected command cannot be passed *)

Lemma unverifiable_rejected (u : str) (expected : option str) :
  truthy expected = false -> check_command u expected = false.
Proof. intros H. unfold check_command. rewrite H. reflexivity. Qed.

Lemma step_blocked (loaded : list Level) (i : nat) level s r :
  nth_error loaded i = Some level ->
  truthy (expected_command level) = false ->
  levels s = loaded /\ index s <= i /\ ctl s <> Finished ->
  levels (step s r) = loaded /\ index (step s r) <= i
  /\ ctl (step s r) <> Finished.
Proof.
  intros Hi Hexp.
  apply (step_elim
           (fun s s' =>
              levels s = loaded /\ index s <= i /\ ctl s <> Finished ->
              levels s' = loaded /\ index s' <= i /\ ctl s' <> Finished)).
  - intros _ H. exact H.
  - intros lv _ _ _ (H1 & H2 & _). cbn. repeat split; auto; discriminate.
  - intros lv raw _ _ _ _ (H1 & H2 & _). cbn.
    repeat split; auto; discriminate.
  - intros lv raw _ _ _ _ _ (H1 & H2 & _). cbn.
    repeat split; auto; discriminate.
  - intros lv raw _ _ _ _ _ _ (H1 & H2 & _). cbn.
    repeat split; auto; discriminate.
  - intros lv raw _ Hl _ _ _ Hv (H1 & H2 & _). cbn [levels index ctl].
    assert (Hlt : index s < i).
    { destruct (Nat.eq_dec (index s) i) as [E|E]; [|lia].
      exfalso. rewrite H1, E, Hi in Hl. injection Hl as <-.
      rewrite (unverifiable_rejected _ _ Hexp) in Hv. discriminate Hv. }
    split; [exact H1|]. split; [lia|].
    rewrite H1.
    destruct (nth_error loaded (S (index s))) eqn:E; [discriminate|].
    exfalso. apply nth_error_None in E.
    assert (i < List.length loaded)
      by (apply nth_error_Some; congruence).
    lia.
Qed.

(** A level whose expected command is missing or empty cannot be passed: the
    session never gets beyond it and so never completes, whatever is
    typed. *)
Theorem level_without_expectation_blocks
        (loaded : list Level) (i : nat) level (inputs : list read) :
  nth_error loaded i = Some level ->
  truthy (expected_command level) = false ->
  index (main loaded inputs) <= i /\ ctl (main loaded inputs) <> Finished.
Proof.
  intros Hi Hexp.
  destruct loaded as [|l ls]; [destruct i; discriminate Hi|].
  rewrite main_loop. cbn [emit index ctl].
  apply (run_invariant
           (fun s => levels s = l :: ls /\ index s <= i /\ ctl s <> Finished)).
  - intros s r. apply (step_blocked (l :: ls) i level s r Hi Hexp).
  - intros s _ (H1 & H2 & _). cbn. repeat split; auto; discriminate.
  - rewrite first_level. cbn. repeat split; [lia|discriminate].
Qed.

(** *** The index counts the accepted answers *)

Lemma correct_shown (res : run_result) : filter is_correct (shown res) = [].
Proof.
  destruct res as [out err code|]; [|reflexivity].
  simpl. destruct (strip out), (strip err); reflexivity.
Qed.

Lemma correct_announce (ls : list Level) (i : nat) :
  filter is_correct (announce ls i) = [].
Proof. unfold announce. destruct (nth_error ls i); reflexivity. Qed.

Lemma correct_demo (u : str) : filter is_correct (demo u) = [].
Proof.
  unfold demonstration.
  destruct (mem (base_of (split u)) safe_commands); [|reflexivity].
  cbn [filter is_correct]. apply correct_shown.
Qed.

Lemma step_counts s r :
  index s = List.length (filter is_correct (trace s)) ->
  index (step s r) = List.length (filter is_correct (trace (step s r))).
Proof.
  apply (step_elim
           (fun s s' =>
              index s = List.length (filter is_correct (trace s)) ->
              index s' = List.length (filter is_correct (trace s')))).
  - intros _ H. exact H.
  - intros lv _ _ _ H. exact H.
  - intros lv raw _ _ _ _ H. cbn [index trace].
    rewrite filter_app, length_app, <- H. cbn. lia.
  - intros lv raw _ _ _ _ _ H. cbn [index trace].
    rewrite filter_app, length_app, <- H.
    destruct (hint lv) as [[|c h]|]; cbn; lia.
  - intros lv raw _ _ _ _ _ _ H. cbn [index trace].
    rewrite filter_app, length_app, <- H. cbn. lia.
  - intros lv raw _ _ _ _ _ _ H. cbn [index trace].
    rewrite filter_app, length_app, <- H.
    cbn [filter is_correct].
    rewrite filter_app, correct_demo.
    cbn [filter is_correct app]. rewrite correct_announce. cbn. lia.
Qed.

Lemma step_in_range s r : in_range s -> in_range (step s r).
Proof.
  apply (step_elim (fun s s' => in_range s -> in_range s')).
  - intros _ H. exact H.
  - intros lv Hc _ _. unfold in_range. rewrite Hc. cbn. auto.
  - intros lv raw Hc _ _ _. unfold in_range. rewrite Hc. cbn. auto.
  - intros lv raw Hc _ _ _ _. unfold in_range. rewrite Hc. cbn. auto.
  - intros lv raw Hc _ _ _ _ _. unfold in_range. rewrite Hc. cbn. auto.
  - intros lv raw Hc _ _ _ _ _. unfold in_range. rewrite Hc.
    cbn [ctl index levels]. intros Hlt.
    destruct (nth_error (levels s) (S (index s))) eqn:E.
    + apply nth_error_Some. congruence.
    + apply nth_error_None in E. lia.
Qed.

(** With levels loaded, the index at the end is the number of answers that
    were accepted, and the session is completed exactly when that number is
    the number of levels. *)
Theorem progress_counts_accepted_answers
        (loaded : list Level) (inputs : list read) :
  loaded <> [] ->
  index (main loaded inputs)
  = List.length (filter is_correct (trace (main loaded inputs)))
  /\ (ctl (main loaded inputs) = Finished
      <-> index (main loaded inputs) = List.length loaded).
Proof.
  intros Hne. destruct loaded as [|l ls]; [contradiction|].
  rewrite main_loop. cbn [emit index ctl trace].
  set (s0 := enter_level _).
  assert (H0 : ctl s0 = Prompting) by reflexivity.
  split.
  - rewrite filter_app, length_app. cbn. rewrite Nat.add_0_r.
    apply (run_invariant
             (fun s => index s = List.length (filter is_correct (trace s))));
      [exact step_counts|intros s _ H; exact H|reflexivity].
  - assert (Hr : in_range (run s0 inputs)).
    { apply (run_invariant in_range).
      - exact step_in_range.
      - intros s Hc. unfold in_range. rewrite Hc. cbn. auto.
      - unfold in_range. rewrite H0. cbn. lia. }
    assert (Hl : levels (run s0 inputs) = l :: ls)
      by (rewrite (proj1 (run_monotone _ _ _ _)); reflexivity).
    pose proof (run_ends lower subprocess_run s0 inputs) as He.
    unfold in_range in Hr. rewrite Hl in Hr.
    destruct He as [He|[He|He]]; try (rewrite H0; discriminate);
      rewrite He in Hr |- *; split; intros H; try reflexivity;
      try discriminate; try lia; exact Hr.
Qed.

(** *** Every line typed is logged *)








(** *** The expected commands solve the levels *)

Lemma nth_error_skipn_hd (A : Type) (l : list A) (n : nat) :
  nth_error l n = hd_error (skipn n l).
Proof.
  revert l; induction n as [|n IH]; intros [|x l]; try reflexivity.
  simpl. apply IH.
Qed.

Lemma skipn_succ_tl (A : Type) (l : list A) (n : nat) :
  skipn (S n) l = tl (skipn n l).
Proof.
  revert l; induction n as [|n IH]; intros [|x l]; try reflexivity.
  change (skipn (S n) l = tl (skipn n l)). apply IH.
Qed.

Lemma run_answers (rest : list Level) s :
  skipn (index s) (levels s) = rest ->
  Forall (answerable lower) rest ->
  ctl s = match rest with [] => Finished | _ => Prompting end ->
  ctl (run s (map Line (map answer rest))) = Finished
  /\ index (run s (map Line (map answer rest)))
     = index s + List.length rest.
Proof.
  revert s. induction rest as [|l rest IH]; intros s Hk Hall Hc.
  - simpl. rewrite Hc. split; [exact Hc|lia].
  - inversion Hall as [|? ? (e & He & Hne & Hq & Hh) Hall']; subst.
    assert (Hl : nth_error (levels s) (index s) = Some l)
      by (rewrite nth_error_skipn_hd, Hk; reflexivity).
    assert (Ha : answer l = e) by (unfold answer; rewrite He; reflexivity).
    cbn [map]. rewrite (run_cons _ _ _ _ _ Hc), Ha.
    rewrite (step_answer _ _ _ _ _ Hc Hl Hq Hh). cbv zeta.
    rewrite He, (words_accepted _ _ Hne (split_strip e)).
    match goal with |- context [run ?x _] => set (s1 := x) end.
    assert (H1 : index s1 = S (index s))
      by (unfold s1; rewrite index_enter_level; reflexivity).
    assert (H2 : levels s1 = levels s)
      by (unfold s1; rewrite levels_enter_level; reflexivity).
    assert (H3 : skipn (index s1) (levels s1) = rest)
      by (rewrite H1, H2, skipn_succ_tl, Hk; reflexivity).
    destruct (IH s1 H3 Hall') as [I1 I2].
    + unfold s1. rewrite ctl_enter_level. cbn [levels index advance emit].
      rewrite nth_error_skipn_hd.
      rewrite <- H1, <- H2, H3. destruct rest; reflexivity.
    + split; [exact I1|]. rewrite I2, H1. simpl. lia.
Qed.

(** Typing the expected command of each level in turn completes the
    session, provided every level has one and none of them is a word the
    loop takes for itself ([exit], [quit], [hint]). *)
Theorem answer_key_completes (loaded : list Level) :
  loaded <> [] ->
  Forall (answerable lower) loaded ->
  ctl (main loaded (map Line (map answer loaded))) = Finished
  /\ index (main loaded (map Line (map answer loaded)))
     = List.length loaded.
Proof.
  intros Hne Hall. destruct loaded as [|l ls]; [contradiction|].
  rewrite main_loop. cbn [emit ctl index].
  rewrite first_level.
  apply (run_answers (l :: ls)
           (mkSession (l :: ls) 0 Prompting
              ([Write (SessionStarted t_start); Print Welcome]
               ++ announce (l :: ls) 0)));
    [reflexivity|exact Hall|reflexivity].
Qed.

(** *** The log tells how the session ended *)

Lemma in_written (l : log_line) (tr : list event) :
  In l (written tr) <-> In (Write l) tr.
Proof.
  unfold written. rewrite in_flat_map. split.
  - intros (e & He & Hl). destruct e; try contradiction.
    destruct Hl as [<-|[]]. exact He.
  - intros H. exists (Write l). split; [exact H|now left].
Qed.

Lemma shown_writes (res : run_result) (l : log_line) :
  ~ In (Write l) (shown res).
Proof.
  destruct res as [out err code|]; [|intros []].
  simpl. destruct (strip out), (strip err); simpl;
    intros H; repeat (destruct H as [H|H]; [discriminate H|]); exact H.
Qed.

Lemma announce_writes (ls : list Level) (i : nat) (l : log_line) :
  ~ In (Write l) (announce ls i).
Proof.
  unfold announce. destruct (nth_error ls i); simpl;
    intros H; repeat (destruct H as [H|H]; [discriminate H|]); exact H.
Qed.

Lemma demo_writes (u : str) (l : log_line) : ~ In (Write l) (demo u).
Proof.
  unfold demonstration.
  destruct (mem (base_of (split u)) safe_commands); simpl.
  - intros [H|H]; [discriminate H|]. revert H. apply shown_writes.
  - intros [H|[]]. discriminate H.
Qed.

Lemma step_exit_logged s r :
  (ctl s = Quit <-> In (Write UserExited) (trace s)) ->
  (ctl (step s r) = Quit <-> In (Write UserExited) (trace (step s r))).
Proof.
  apply (step_elim
           (fun s s' =>
              (ctl s = Quit <-> In (Write UserExited) (trace s)) ->
              (ctl s' = Quit <-> In (Write UserExited) (trace s')))).
  - intros _ H. exact H.
  - intros lv Hc _ _ H. cbn [ctl trace]. rewrite <- H, Hc.
    split; discriminate.
  - intros lv raw _ _ _ _ _. cbn [ctl trace]. rewrite in_app_iff.
    split; [intros _|reflexivity]. right. simpl. auto.
  - intros lv raw Hc _ _ _ _ H. cbn [ctl trace].
    rewrite in_app_iff, <- H, Hc. split; [discriminate|].
    intros [E|E]; [discriminate E|]. exfalso.
    simpl in E. destruct E as [E|[E|[]]]; discriminate E.
  - intros lv raw Hc _ _ _ _ _ H. cbn [ctl trace].
    rewrite in_app_iff, <- H, Hc. split; [discriminate|].
    intros [E|E]; [discriminate E|]. exfalso.
    simpl in E. destruct E as [E|[E|[E|[]]]]; discriminate E.
  - intros lv raw Hc _ _ _ _ _ H. cbn [ctl trace].
    rewrite in_app_iff, <- H, Hc. split.
    + destruct (nth_error (levels s) (S (index s))); discriminate.
    + intros [E|E]; [discriminate E|]. exfalso.
      destruct E as [E|[E|[E|E]]]; try discriminate E.
      apply in_app_iff in E. destruct E as [E|[E|E]];
        [revert E; apply demo_writes|discriminate E|
         revert E; apply announce_writes].
Qed.

(** The log has the line "User exited the session." exactly when the session
    ended on [exit] or [quit]. *)
Theorem exit_line_tells_quit (loaded : list Level) (inputs : list read) :
  In UserExited (written (trace (main loaded inputs)))
  <-> ctl (main loaded inputs) = Quit.
Proof.
  rewrite in_written. symmetry.
  destruct loaded as [|l ls].
  - cbn. split; [discriminate|].
    intros H. repeat (destruct H as [H|H]; [discriminate H|]). destruct H.
  - rewrite main_loop. cbn [emit ctl trace]. rewrite in_app_iff.
    match goal with |- ctl ?x = _ <-> _ =>
      assert (H : ctl x = Quit <-> In (Write UserExited) (trace x))
    end.
    { apply (run_invariant
               (fun s => ctl s = Quit <-> In (Write UserExited) (trace s))).
      - exact step_exit_logged.
      - intros s Hc H. cbn [goto ctl trace]. rewrite <- H, Hc.
        split; discriminate.
      - rewrite first_level. cbn [ctl trace]. split; [discriminate|].
        intros H. exfalso. apply in_app_iff in H.
        destruct H as [[H|[H|[]]]|H]; try discriminate H.
        revert H. apply announce_writes. }
    rewrite H. split; [now left|].
    intros [E|[E|[E|[]]]]; [exact E|discriminate E..].
Qed.

End SessionLife.

(** * Loading the levels *)

Section Loading.
Import Loader.

Variable lower : str -> str.
Variable read_level : str -> option Level.

Abbreviation load_levels := (load_levels lower read_level).
Abbreviation level_files := (level_files lower).
Abbreviation read_all := (read_all read_level).
Abbreviation readable := (readable read_level).
Abbreviation unreadable := (unreadable read_level).



Lemma insert_level_hd (a x : Level) (ls : list Level) :
  key_le x a -> HdRel key_le x ls -> HdRel key_le x (insert_level a ls).
Proof.
  intros Hxa H. destruct ls as [|y ls]; simpl; [now constructor|].
  destruct (sort_key a <=? sort_key y)%Z; constructor; [exact Hxa|].
  now inversion H.
Qed.

Lemma insert_level_sorted (a : Level) (ls : list Level) :
  Sorted key_le ls -> Sorted key_le (insert_level a ls).
Proof.
  induction 1 as [|x ls Hs IH Hd]; simpl; [repeat constructor|].
  destruct (sort_key a <=? sort_key x)%Z eqn:E.
  - constructor; [now constructor|].
    constructor. apply Z.leb_le. exact E.
  - constructor; [exact IH|].
    apply insert_level_hd; [|exact Hd].
    apply Z.leb_gt in E. unfold key_le. lia.
Qed.

Lemma sort_levels_sorted (ls : list Level) : Sorted key_le (sort_levels ls).
Proof.
  induction ls as [|a ls IH]; simpl; [constructor|].
  apply insert_level_sorted, IH.
Qed.

Lemma insert_level_stable (k : Z) (a : Level) (ls : list Level) :
  numbered k (insert_level a ls) = numbered k (a :: ls).
Proof.
  unfold numbered.
  induction ls as [|x ls IH]; [reflexivity|].
  simpl insert_level.
  destruct (sort_key a <=? sort_key x)%Z eqn:E; [reflexivity|].
  apply Z.leb_gt in E.
  cbn [filter] in IH |- *. rewrite IH.
  destruct (sort_key x =? k)%Z eqn:Ex, (sort_key a =? k)%Z eqn:Ea;
    try reflexivity.
  apply Z.eqb_eq in Ex, Ea. lia.
Qed.

Lemma sort_levels_stable (k : Z) (ls : list Level) :
  numbered k (sort_levels ls) = numbered k ls.
Proof.
  induction ls as [|a ls IH]; [reflexivity|].
  simpl sort_levels. rewrite insert_level_stable.
  unfold numbered in *. cbn [filter]. rewrite IH. reflexivity.
Qed.

Lemma read_all_spec (files : list str) :
  read_all files = (map ReadFailed (unreadable files), readable files).
Proof.
  induction files as [|f files IH]; [reflexivity|].
  simpl Loader.read_all. rewrite IH.
  unfold Loader.readable, Loader.unreadable. simpl.
  destruct (read_level f); reflexivity.
Qed.

Lemma load_levels_spec (listing : list str) :
  load_levels listing
  = (map ReadFailed (unreadable (level_files listing)),
     sort_levels (readable (level_files listing))).
Proof. unfold Loader.load_levels. rewrite read_all_spec. reflexivity. Qed.

(** The levels come back in ascending order of their number, a level
    without a number counting as number 0. *)
Theorem load_levels_sorted (listing : list str) :
  Sorted key_le (snd (load_levels listing)).
Proof. rewrite load_levels_spec. apply sort_levels_sorted. Qed.

(** Levels with the same number come back in the order their files were
    listed. *)
Theorem load_levels_stable (listing : list str) (k : Z) :
  numbered k (snd (load_levels listing))
  = numbered k (readable (level_files listing)).
Proof. rewrite load_levels_spec. apply sort_levels_stable. Qed.


Lemma key_le_trans : forall a b c, key_le a b -> key_le b c -> key_le a c.
Proof. unfold key_le. intros. lia. Qed.

Lemma numbered_nil (ls : list Level) :
  (forall k, numbered k ls = []) -> ls = [].
Proof.
  destruct ls as [|x ls]; [reflexivity|].
  intros H. specialize (H (sort_key x)).
  unfold numbered in H. cbn [filter] in H.
  rewrite Z.eqb_refl in H. discriminate H.
Qed.

Lemma numbered_above (x : Level) (ls : list Level) (k : Z) :
  Forall (key_le x) ls -> (k < sort_key x)%Z -> numbered k ls = [].
Proof.
  intros Hall Hk. unfold numbered.
  induction Hall as [|y ls Hy Hall IH]; [reflexivity|].
  cbn [filter]. unfold key_le in Hy.
  destruct (sort_key y =? k)%Z eqn:E; [apply Z.eqb_eq in E; lia|exact IH].
Qed.

(** A sorted list is known from the levels it has of each number, in their
    order: there is one stable sort only, and [sort_levels] is it. *)
Lemma stable_sorted_unique (l1 l2 : list Level) :
  Sorted key_le l1 -> Sorted key_le l2 ->
  (forall k, numbered k l1 = numbered k l2) -> l1 = l2.
Proof.
  intros H1 H2.
  apply (Sorted_StronglySorted key_le_trans) in H1, H2.
  revert l2 H2.
  induction H1 as [|a l1 Hs1 IH Ha]; intros l2 H2 Heq.
  - symmetry. apply numbered_nil. intros k. now rewrite <- Heq.
  - destruct H2 as [|b l2 Hs2 Hb].
    + exfalso. specialize (Heq (sort_key a)).
      unfold numbered in Heq. cbn [filter] in Heq.
      rewrite Z.eqb_refl in Heq. discriminate Heq.
    + assert (Hk : sort_key a = sort_key b).
      { destruct (Z.lt_trichotomy (sort_key a) (sort_key b)) as [H|[H|H]];
          [|exact H|]; exfalso.
        - specialize (Heq (sort_key a)). unfold numbered in Heq.
          cbn [filter] in Heq. rewrite Z.eqb_refl in Heq.
          destruct (sort_key b =? sort_key a)%Z eqn:E;
            [apply Z.eqb_eq in E; lia|].
          fold (numbered (sort_key a) l2) in Heq.
          rewrite (numbered_above b l2 (sort_key a) Hb H) in Heq.
          discriminate Heq.
        - specialize (Heq (sort_key b)). unfold numbered in Heq.
          cbn [filter] in Heq. rewrite Z.eqb_refl in Heq.
          destruct (sort_key a =? sort_key b)%Z eqn:E;
            [apply Z.eqb_eq in E; lia|].
          fold (numbered (sort_key b) l1) in Heq.
          rewrite (numbered_above a l1 (sort_key b) Ha H) in Heq.
          discriminate Heq. }
      pose proof (Heq (sort_key a)) as H0.
      unfold numbered in H0. cbn [filter] in H0.
      rewrite <- Hk, Z.eqb_refl in H0. injection H0 as <- H0.
      f_equal. apply IH; [exact Hs2|].
      intros k. specialize (Heq k). unfold numbered in Heq |- *.
      cbn [filter] in Heq.
      destruct (sort_key a =? k)%Z; [injection Heq as Heq|]; exact Heq.
Qed.


(** What [load_levels] returns is the one arrangement of the readable levels
    that is in ascending order of number and keeps the listing order among
    equal numbers. *)
Theorem load_levels_determined (listing : list str) (result : list Level) :
  Sorted key_le result ->
  (forall k, numbered k result = numbered k (readable (level_files listing))) ->
  result = snd (load_levels listing).
Proof.
  intros Hs Hst. apply stable_sorted_unique; [exact Hs| |].
  - rewrite load_levels_spec. apply sort_levels_sorted.
  - intros k. rewrite Hst, load_levels_spec. cbn [snd].
    symmetry. apply sort_levels_stable.
Qed.

End Loading.

(** * From the directory to the session *)

Section Program.
Import Loader Observe.

Variable lower : str -> str.
Variable read_level : str -> option Level.
Variable subprocess_run : list str -> run_result.
Variables t_start t_end : timestamp.

Abbreviation load_levels := (load_levels lower read_level).
Abbreviation main := (main lower subprocess_run t_start t_end).




End Program.

(** * The sample directory and sessions *)

Section SampleRuns.
Import Loader Observe.

(** The sample directory: the file that is not [.json] is left alone, the
    broken one is reported, the two others come back by number, the case of
    the suffix not counting. *)
Example sample_directory_loaded :
  load_levels ascii_lower Samples.read_sample Samples.listing
  = ([ReadFailed (lit "broken.json")], [Demo.level1; Demo.level2]).
Proof. reflexivity. Qed.

Lemma session_end_recorded_witness :
  exists tr,
    trace (main ascii_lower Demo.no_binaries (lit "T0") (lit "T1")
             Demo.two_levels [Line (lit "pwd"); ReadRaised])
    = tr ++ [Write (SessionEnded (lit "T1")); Close]
    /\ closed tr = false
    /\ (ctl (main ascii_lower Demo.no_binaries (lit "T0") (lit "T1")
               Demo.two_levels [Line (lit "pwd"); ReadRaised]) = Finished
        \/ ctl (main ascii_lower Demo.no_binaries (lit "T0") (lit "T1")
                  Demo.two_levels [Line (lit "pwd"); ReadRaised]) = Quit
        \/ ctl (main ascii_lower Demo.no_binaries (lit "T0") (lit "T1")
                  Demo.two_levels [Line (lit "pwd"); ReadRaised]) = Failed).
Proof.
  apply (session_end_recorded ascii_lower Demo.no_binaries (lit "T0")
           (lit "T1") Demo.two_levels [Line (lit "pwd"); ReadRaised]).
  discriminate.
Defined.

Lemma only_allowed_commands_run_witness :
  mem (base_of [lit "ls"; lit "-l"]) safe_commands = true.
Proof.
  apply (only_allowed_commands_run ascii_lower Demo.always_failing
           (lit "T0") (lit "T1") Demo.two_levels
           (map Line [lit "pwd"; lit "ls  -l"]) [lit "ls"; lit "-l"]).
  vm_compute. repeat (first [left; reflexivity | right]).
Defined.

Lemma level_without_expectation_blocks_witness :
  index (main ascii_lower Demo.no_binaries (lit "T0") (lit "T1")
           Samples.with_gap (map Line [lit "pwd"; lit "ls"; lit "ls"])) <= 1
  /\ ctl (main ascii_lower Demo.no_binaries (lit "T0") (lit "T1")
            Samples.with_gap (map Line [lit "pwd"; lit "ls"; lit "ls"]))
     <> Finished.
Proof.
  apply (level_without_expectation_blocks ascii_lower Demo.no_binaries
           (lit "T0") (lit "T1") Samples.with_gap 1 Samples.level_open);
    reflexivity.
Defined.

Lemma progress_counts_accepted_answers_witness :
  index (main ascii_lower Demo.no_binaries (lit "T0") (lit "T1")
           Demo.two_levels (map Line [lit "pwd"; lit "cd"]))
  = List.length
      (filter is_correct
         (trace (main ascii_lower Demo.no_binaries (lit "T0") (lit "T1")
                   Demo.two_levels (map Line [lit "pwd"; lit "cd"])))).
Proof.
  apply (progress_counts_accepted_answers ascii_lower Demo.no_binaries
           (lit "T0") (lit "T1") Demo.two_levels
           (map Line [lit "pwd"; lit "cd"])).
  discriminate.
Defined.

Lemma answer_key_completes_witness :
  ctl (main ascii_lower Demo.always_failing (lit "T0") (lit "T1")
         Demo.two_levels (map Line (map answer Demo.two_levels)))
  = Finished.
Proof.
  apply (answer_key_completes ascii_lower Demo.always_failing
           (lit "T0") (lit "T1") Demo.two_levels).
  - discriminate.
  - repeat constructor.
    + exists (lit "pwd"). repeat split. discriminate.
    + exists (lit "ls"). repeat split. discriminate.
Defined.

Lemma load_levels_determined_witness :
  [Demo.level1; Demo.level2]
  = snd (load_levels ascii_lower Samples.read_sample Samples.listing).
Proof.
  apply (load_levels_determined ascii_lower Samples.read_sample
           Samples.listing [Demo.level1; Demo.level2]).
  - apply Sorted_cons; [apply Sorted_cons; constructor|].
    apply HdRel_cons. unfold key_le. vm_compute. discriminate.
  - intros k. unfold numbered.
    change (readable Samples.read_sample
              (level_files ascii_lower Samples.listing))
      with [Demo.level2; Demo.level1].
    cbn [filter].
    change (sort_key Demo.level1) with 1%Z.
    change (sort_key Demo.level2) with 2%Z.
    destruct (1 =? k)%Z eqn:E1, (2 =? k)%Z eqn:E2; try reflexivity.
    apply Z.eqb_eq in E1, E2. lia.
Defined.

End SampleRuns.
